(** * raiden_contracts.deploy: the deployment script, embedded and verified

    A shallow embedding of [raiden_contracts/deploy/__main__.py]: the
    [ContractDeployer] class, the [click] commands [main], [raiden], [token]
    and [register], and the helpers [deploy_raiden_contracts],
    [deploy_token_contract], [register_token_network] and
    [validate_address].

    The script is sequential glue around a blockchain client.  Its effects
    (RPC calls, the artifact store, standard output) are modelled by a state
    and exception monad over an abstract client; every effect the script
    performs is also recorded, in program order, in a trace. *)

From Stdlib Require Import ZArith Ascii String.
From stdpp Require Import gmap strings list pretty.

Local Open Scope string_scope.
Local Open Scope list_scope.
Local Open Scope Z_scope.

(** ** Python values and exceptions *)

(** The dynamically typed values that travel through the script: constructor
    arguments, entries of the transaction dictionary.  The value of a float
    is not represented. *)
Inductive pyval : Type :=
  | PyNone
  | PyInt (z : Z)
  | PyStr (s : string)
  | PyFloat.

(** An address slot as Python has it: [None] or a [str]. *)
Definition of_address (a : option string) : pyval :=
  match a with
  | None => PyNone
  | Some s => PyStr s
  end.

(** Exceptions that can leave a function of the script. *)
Inductive exn : Type :=
  | AssertionError (msg : string)
  | BadParameter (msg : string)
  | UsageError (msg : string)
  | ValueError
  | TypeError
  | KeyError (key : string)
  | ChecksumMismatch
  | TransactionTimeout
  | ClientError.

(** Truthiness of an optional string: [None] and the empty string are false. *)
Definition truthy (v : option string) : bool :=
  match v with
  | None => false
  | Some s => negb (String.eqb s "")
  end.

(** ** Keccak-256, the hash under the address checksum *)

Module Keccak.

Definition w64 (z : Z) : Z := Z.land z (Z.ones 64).

Definition rotl64 (x n : Z) : Z :=
  w64 (Z.lor (Z.shiftl x n) (Z.shiftr x (64 - n))).

(** The state is 25 lanes of 64 bits, lane [(x, y)] at index [x + 5 y]. *)
Definition lane (a : list Z) (x y : Z) : Z :=
  nth (Z.to_nat (x mod 5 + 5 * y)) a 0.

Definition coords : list (Z * Z) :=
  y ← [0; 1; 2; 3; 4]; x ← [0; 1; 2; 3; 4]; [(x, y)].

Definition rho_offsets : list Z :=
  [0; 1; 62; 28; 27; 36; 44; 6; 55; 20; 3; 10; 43; 25; 39;
   41; 45; 15; 21; 8; 18; 2; 61; 56; 14].

Definition round_constants : list Z :=
  [0x0000000000000001; 0x0000000000008082; 0x800000000000808A;
   0x8000000080008000; 0x000000000000808B; 0x0000000080000001;
   0x8000000080008081; 0x8000000000008009; 0x000000000000008A;
   0x0000000000000088; 0x0000000080008009; 0x000000008000000A;
   0x000000008000808B; 0x800000000000008B; 0x8000000000008089;
   0x8000000000008003; 0x8000000000008002; 0x8000000000000080;
   0x000000000000800A; 0x800000008000000A; 0x8000000080008081;
   0x8000000000008080; 0x0000000080000001; 0x8000000080008008].

Definition theta (a : list Z) : list Z :=
  let c x := fold_right Z.lxor 0 (map (lane a x) [0; 1; 2; 3; 4]) in
  let d x := Z.lxor (c (x + 4)) (rotl64 (c (x + 1)) 1) in
  map (λ '(x, y), Z.lxor (lane a x y) (d x)) coords.

Definition rho_pi (a : list Z) : list Z :=
  map (λ '(x, y),
         let x0 := (x + 3 * y) mod 5 in
         rotl64 (lane a x0 x) (nth (Z.to_nat (x0 + 5 * x)) rho_offsets 0))
      coords.

Definition chi (b : list Z) : list Z :=
  map (λ '(x, y),
         Z.lxor (lane b x y)
                (Z.land (Z.lxor (lane b (x + 1) y) (Z.ones 64))
                        (lane b (x + 2) y)))
      coords.

Definition iota (rc : Z) (a : list Z) : list Z :=
  match a with
  | [] => []
  | a0 :: a' => Z.lxor a0 rc :: a'
  end.

Definition round (a : list Z) (rc : Z) : list Z :=
  iota rc (chi (rho_pi (theta a))).

Definition keccak_f (a : list Z) : list Z :=
  fold_left round round_constants a.

(** Sponge with rate 136 bytes and the original Keccak padding. *)
Definition rate : nat := 136.

Definition pad (msg : list Z) : list Z :=
  let q := (rate - length msg mod rate)%nat in
  if decide (q = 1%nat) then msg ++ [0x81]
  else msg ++ [0x01] ++ replicate (q - 2) 0 ++ [0x80].

Fixpoint lane_of_bytes (bs : list Z) : Z :=
  match bs with
  | [] => 0
  | b :: bs' => b + 256 * lane_of_bytes bs'
  end.

Fixpoint lanes_of_bytes (n : nat) (bs : list Z) : list Z :=
  match n with
  | O => []
  | S n' => lane_of_bytes (take 8 bs) :: lanes_of_bytes n' (drop 8 bs)
  end.

Fixpoint xor_into (a blk : list Z) : list Z :=
  match a, blk with
  | x :: a', b :: blk' => Z.lxor x b :: xor_into a' blk'
  | _, _ => a
  end.

Fixpoint absorb (blocks : nat) (bs a : list Z) : list Z :=
  match blocks with
  | O => a
  | S n =>
      absorb n (drop rate bs)
             (keccak_f (xor_into a (lanes_of_bytes 17 (take rate bs))))
  end.

Fixpoint bytes_of_lane (n : nat) (l : Z) : list Z :=
  match n with
  | O => []
  | S n' => l mod 256 :: bytes_of_lane n' (l / 256)
  end.

Definition keccak256 (msg : list Z) : list Z :=
  let p := pad msg in
  let a := absorb (length p / rate) p (replicate 25 0) in
  take 4 a ≫= bytes_of_lane 8.

End Keccak.

(** ** The address functions of [eth_utils]

    [is_address] and [to_checksum_address] are imported from the third-party
    library [eth_utils]; they are modelled here on [str] inputs, which is
    what the command line and the receipts provide, with the mixed-case
    checksum of EIP-55. *)

Module eth_utils.

Definition char_lower (c : ascii) : ascii :=
  let n := N_of_ascii c in
  if ((65 <=? n) && (n <=? 90))%N then ascii_of_N (n + 32) else c.

Definition char_upper (c : ascii) : ascii :=
  let n := N_of_ascii c in
  if ((97 <=? n) && (n <=? 122))%N then ascii_of_N (n - 32) else c.

Fixpoint lower (s : string) : string :=
  match s with
  | EmptyString => EmptyString
  | String c s' => String (char_lower c) (lower s')
  end.

Fixpoint upper (s : string) : string :=
  match s with
  | EmptyString => EmptyString
  | String c s' => String (char_upper c) (upper s')
  end.

(** Membership in [string.hexdigits]. *)
Definition is_hexdigit (c : ascii) : bool :=
  let n := N_of_ascii c in
  (((48 <=? n) && (n <=? 57)) || ((97 <=? n) && (n <=? 102))
   || ((65 <=? n) && (n <=? 70)))%N.

Fixpoint all_hexdigits (s : string) : bool :=
  match s with
  | EmptyString => true
  | String c s' => is_hexdigit c && all_hexdigits s'
  end.

Definition is_0x_prefixed (value : string) : bool :=
  String.prefix "0x" value || String.prefix "0X" value.

Definition remove_0x_prefix (value : string) : string :=
  if is_0x_prefixed value
  then String.substring 2 (String.length value - 2) value
  else value.

Definition add_0x_prefix (value : string) : string :=
  if is_0x_prefixed value then value else "0x" +:+ value.

(** [is_hex]: the bare prefix counts as hexadecimal, the empty string does
    not. *)
Definition is_hex (value : string) : bool :=
  if String.eqb (lower value) "0x" then true
  else
    let unprefixed := remove_0x_prefix value in
    negb (String.eqb unprefixed "") && all_hexdigits unprefixed.

Definition is_hex_address (value : string) : bool :=
  is_hex value && (String.length (remove_0x_prefix value) =? 40)%nat.

(** [hexstr_if_str(to_hex, value)] followed by [.lower()], then the check
    of the normalized form.  On a lower-case string [is_address] is
    [is_hex_address] (lemma [is_address_lower] below). *)
Definition to_normalized_address (value : string) : exn + string :=
  if negb (String.eqb (remove_0x_prefix value) "") && negb (is_hex value)
  then inl ValueError
  else
    let hex_address := lower (add_0x_prefix (lower value)) in
    if is_hex_address hex_address then inr hex_address else inl ValueError.

Definition byte_of_char (c : ascii) : Z := Z.of_N (N_of_ascii c).

Fixpoint bytes_of_text (s : string) : list Z :=
  match s with
  | EmptyString => []
  | String c s' => byte_of_char c :: bytes_of_text s'
  end.

(** The hexadecimal digits of a byte string, as numbers. *)
Definition nibbles (bs : list Z) : list Z :=
  bs ≫= (λ b, [b / 16; b mod 16]).

(** Upper-case the characters whose hash digit is above 7. *)
Fixpoint checksum_case (s : string) (h : list Z) : string :=
  match s with
  | EmptyString => EmptyString
  | String c s' =>
      String (if 7 <? hd 0 h then char_upper c else c)
             (checksum_case s' (tl h))
  end.

Definition to_checksum_address (value : string) : exn + string :=
  match to_normalized_address value with
  | inl e => inl e
  | inr norm_address =>
      let body := remove_0x_prefix norm_address in
      let address_hash := nibbles (Keccak.keccak256 (bytes_of_text body)) in
      inr (add_0x_prefix (checksum_case body address_hash))
  end.

Definition is_checksum_address (value : string) : bool :=
  if negb (is_hex_address value) then false
  else
    match to_checksum_address value with
    | inr a => String.eqb value a
    | inl _ => false
    end.

Definition is_checksum_formatted_address (value : string) : bool :=
  if negb (is_hex_address value) then false
  else if String.eqb (remove_0x_prefix value) (lower (remove_0x_prefix value))
  then false
  else if String.eqb (remove_0x_prefix value) (upper (remove_0x_prefix value))
  then false
  else true.

Definition is_address (value : string) : bool :=
  if is_checksum_formatted_address value then is_checksum_address value
  else if is_hex_address value then true
  else false.

(** [denoms.gwei] *)
Definition gwei : Z := 10 ^ 9.

End eth_utils.

(** ** Constants, artifacts and the blockchain client *)

(** Modelled from the spec: the module [raiden_contracts.constants] is not
    among the sources.  The names of the three raiden contracts are the ones
    the specification's properties use; [CustomToken] is the literal that
    the script itself uses for the token type. *)
Definition CONTRACT_ENDPOINT_REGISTRY : string := "EndpointRegistry".
Definition CONTRACT_SECRET_REGISTRY : string := "SecretRegistry".
Definition CONTRACT_TOKEN_NETWORK_REGISTRY : string := "TokenNetworkRegistry".
Definition CONTRACT_CUSTOM_TOKEN : string := "CustomToken".

(** The two locations of [raiden_contracts.contract_manager]. *)
Inductive artifact_path : Type :=
  | CONTRACTS_SOURCE_DIRS
  | CONTRACTS_PRECOMPILED_PATH.

(** [contract_interface['abi']] and [contract_interface['bin']]. *)
Record ContractInterface : Type := {
  abi : string;
  bin : string
}.

(** Modelled from the spec: the class [ContractManager] of
    [raiden_contracts.contract_manager] is not among the sources.  The
    artifact store "holds compiled bytecode and ABI definitions for each
    named contract", with checksums that the verification step compares. *)
Record ContractManager : Type := {
  contracts : gmap string ContractInterface;
  contracts_checksums : option (gmap string string)
}.

(** The receipt of a mined transaction. *)
Record Receipt : Type := {
  transactionHash : string;
  blockNumber : Z;
  contractAddress : option string;
  gasUsed : Z
}.

(** [contract.constructor( *args ).transact(self.transaction, private_key=...)] *)
Record deploy_request : Type := {
  dr_contract_name : string;
  dr_interface : ContractInterface;
  dr_args : list pyval;
  dr_transaction : gmap string pyval;
  dr_private_key : string
}.

(** [contract.functions.<name>( *args )], transacted or called. *)
Record function_request : Type := {
  fr_abi : string;
  fr_address : option string;
  fr_function : string;
  fr_args : list pyval;
  fr_transaction : gmap string pyval;
  fr_private_key : string
}.

(** The external collaborators: the key store, the node behind [web3] and
    the artifact store.  [World] is their state; a call that can raise
    returns [None] when it does.  [eth_getTransactionReceipt] returns [None]
    while the transaction is not mined; [version_network] stands for
    [int(web3.version.network)]. *)
Record Client : Type := {
  World : Type;
  get_private_key : World → string → option (option string);
  private_key_to_address : string → string;
  eth_getBalance : World → string → option N;
  version_network : World → option Z;
  send_constructor : World → deploy_request → World * option string;
  send_function : World → function_request → World * option string;
  call_function : World → function_request → option (option string);
  eth_getTransactionReceipt : World → string → World * option Receipt;
  load_contracts : World → artifact_path → option (gmap string ContractInterface);
  source_checksums : World → option (gmap string string);
  precompiled_checksums : World → artifact_path → option (gmap string string)
}.

(** What the script writes to standard output. *)
Inductive output : Type :=
  | OutProvider (rpc_provider : string)
  | OutDeployed (deployed : gmap string (option string))
  | OutTokenNetwork (address : option string) (gas_used : Z).

(** The effects of the script, as recorded in the trace. *)
Inductive event : Type :=
  | EvPrint (o : output)
  | EvGetBalance (owner : string)
  | EvLoadContracts (path : artifact_path)
  | EvChecksumContracts
  | EvVerifyChecksums (path : artifact_path)
  | EvDeploy (r : deploy_request)
  | EvTransact (r : function_request)
  | EvCall (r : function_request)
  | EvPollReceipt (txhash : string).

(** [self.web3] is the world; the other attributes of a [ContractDeployer]. *)
Record ContractDeployer : Type := {
  d_private_key : string;
  d_wait : Z;
  d_transaction : gmap string pyval;
  d_contract_manager : ContractManager
}.

(** The dictionary [ctx.obj] that [main] installs. *)
Record ctx_obj : Type := {
  obj_deployer : ContractDeployer;
  obj_deployed_contracts : gmap string (option string);
  obj_token_type : string;
  obj_wait : Z
}.

(** The subcommands of the [click] group with their parameters. *)
Inductive subcommand : Type :=
  | Raiden
  | Token (token_supply : Z) (token_name : string) (token_decimals : Z)
          (token_symbol : string)
  | Register (token_address registry_address : option string).

(** ** A simulated node

    A small deterministic client used to run the script on concrete inputs:
    it hands out transaction hashes in sequence and, when it mines, reports
    for the n-th transaction the n-th address of [sim_addresses]. *)

Module Sim.

Record node : Type := {
  sim_balance : N;
  sim_mines : bool;
  sim_addresses : list string;
  sim_sent : list string;
  sim_precompiled_ok : bool
}.

Definition interface_of (name : string) : ContractInterface :=
  {| abi := "abi:" +:+ name; bin := "bin:" +:+ name |}.

Definition artifacts : gmap string ContractInterface :=
  list_to_map
    (map (λ name, (name, interface_of name))
         [CONTRACT_ENDPOINT_REGISTRY; CONTRACT_SECRET_REGISTRY;
          CONTRACT_TOKEN_NETWORK_REGISTRY; CONTRACT_CUSTOM_TOKEN]).

Definition checksums (ok : bool) : gmap string string :=
  {[ "TokenNetworkRegistry.sol" := if ok then "c0ffee" else "decaf0" ]}.

Definition send (w : node) : node * option string :=
  let txhash := "0x" +:+ pretty (length (sim_sent w)) in
  ({| sim_balance := sim_balance w;
      sim_mines := sim_mines w;
      sim_addresses := sim_addresses w;
      sim_sent := sim_sent w ++ [txhash];
      sim_precompiled_ok := sim_precompiled_ok w |},
   Some txhash).

Fixpoint position (txhash : string) (sent : list string) : option nat :=
  match sent with
  | [] => None
  | h :: sent' =>
      if String.eqb h txhash then Some O
      else S <$> position txhash sent'
  end.

Definition receipt_of (w : node) (txhash : string) : option Receipt :=
  if sim_mines w then
    match position txhash (sim_sent w) with
    | Some n =>
        Some {| transactionHash := txhash;
                blockNumber := Z.of_nat (S n);
                contractAddress := sim_addresses w !! n;
                gasUsed := 1000000 + Z.of_nat n |}
    | None => None
    end
  else None.

Definition client : Client :=
  {| World := node;
     get_private_key := λ _ path,
       Some (if String.eqb path "" then None else Some ("key:" +:+ path));
     private_key_to_address := λ _, "0x5aAeb6053F3E94C9b9A09f33669435E7Ef1BeAed";
     eth_getBalance := λ w _, Some (sim_balance w);
     version_network := λ _, Some 337;
     send_constructor := λ w _, send w;
     send_function := λ w _, send w;
     call_function := λ _ _, Some (Some "0xdbF03B407c01E7cD3CBea99509d93f8DDDC8C6FB");
     eth_getTransactionReceipt := λ w txhash, (w, receipt_of w txhash);
     load_contracts := λ _ _, Some artifacts;
     source_checksums := λ _, Some (checksums true);
     precompiled_checksums := λ w _, Some (checksums (sim_precompiled_ok w)) |}.

Definition node0 (addresses : list string) : node :=
  {| sim_balance := 10 ^ 18;
     sim_mines := true;
     sim_addresses := addresses;
     sim_sent := [];
     sim_precompiled_ok := true |}.

(** A node whose account is empty. *)
Definition broke : node :=
  {| sim_balance := 0;
     sim_mines := true;
     sim_addresses := [];
     sim_sent := [];
     sim_precompiled_ok := true |}.

(** The same client, except that no receipt is ever returned. *)
Definition silent : Client :=
  {| World := node;
     get_private_key := get_private_key client;
     private_key_to_address := private_key_to_address client;
     eth_getBalance := eth_getBalance client;
     version_network := version_network client;
     send_constructor := send_constructor client;
     send_function := send_function client;
     call_function := call_function client;
     eth_getTransactionReceipt := λ w _, (w, None);
     load_contracts := load_contracts client;
     source_checksums := source_checksums client;
     precompiled_checksums := precompiled_checksums client |}.

(** A deployer that does not wait. *)
Definition impatient : ContractDeployer :=
  {| d_private_key := "key:keyfile";
     d_wait := 0;
     d_transaction := {["from" := PyStr "0x5aAeb6053F3E94C9b9A09f33669435E7Ef1BeAed"]};
     d_contract_manager :=
       {| contracts := artifacts; contracts_checksums := Some (checksums true) |} |}.

(** Addresses in checksum format. *)
Definition checksummed : list string :=
  ["0x5aAeb6053F3E94C9b9A09f33669435E7Ef1BeAed";
   "0xfB6916095ca1df60bB79Ce92cE3Ea74c37c5d359";
   "0xdbF03B407c01E7cD3CBea99509d93f8DDDC8C6FB";
   "0xD1220A0cf47c7B9Be7A2E6BA89F429762e7b9aDb"].



End Sim.

(** ** Observations on traces *)

(** The deployments submitted, in order: contract name and constructor
    arguments. *)
Definition deployments (t : list event) : list (string * list pyval) :=
  omap (λ e, match e with
             | EvDeploy r => Some (dr_contract_name r, dr_args r)
             | _ => None
             end) t.

(** The checksum verifications performed. *)
Definition verifications (t : list event) : list artifact_path :=
  omap (λ e, match e with
             | EvVerifyChecksums path => Some path
             | _ => None
             end) t.

(** The receipt polls made. *)
Definition polls (t : list event) : list string :=
  omap (λ e, match e with
             | EvPollReceipt txhash => Some txhash
             | _ => None
             end) t.

(** The balance checks made. *)
Definition balance_checks (t : list event) : list string :=
  omap (λ e, match e with
             | EvGetBalance owner => Some owner
             | _ => None
             end) t.

Section Deploy.

Context (C : Client).
Context (DEPLOY_SETTLE_TIMEOUT_MIN DEPLOY_SETTLE_TIMEOUT_MAX : Z).

(** *** The monad: state, trace and exceptions *)

Record state : Type := {
  world : World C;
  trace : list event;
  obj : option ctx_obj
}.

Definition M (A : Type) : Type := state → state * (exn + A).

Definition ret {A} (a : A) : M A := λ s, (s, inr a).

Definition raise {A} (e : exn) : M A := λ s, (s, inl e).

Definition bind {A B} (m : M A) (k : A → M B) : M B :=
  λ s, match m s with
       | (s', inl e) => (s', inl e)
       | (s', inr a) => k a s'
       end.

Notation "'let!' x ':=' m 'in' k" := (bind m (λ x, k))
  (at level 10, x name, m at level 100, k at level 200,
   format "'[v' 'let!'  x  ':='  m  'in' '/' k ']'").

Definition emit (e : event) : M unit :=
  λ s, ({| world := world s; trace := trace s ++ [e]; obj := obj s |}, inr tt).

Definition get_world : M (World C) := λ s, (s, inr (world s)).

Definition set_world (w : World C) : M unit :=
  λ s, ({| world := w; trace := trace s; obj := obj s |}, inr tt).

Definition set_obj (o : ctx_obj) : M unit :=
  λ s, ({| world := world s; trace := trace s; obj := Some o |}, inr tt).

(** Reading [ctx.obj[...]]: subscripting [None] is a [TypeError]. *)
Definition get_obj : M ctx_obj :=
  λ s, match obj s with
       | Some o => (s, inr o)
       | None => (s, inl TypeError)
       end.

Definition lift {A} (r : exn + A) : M A :=
  match r with
  | inl e => raise e
  | inr a => ret a
  end.

(** A call of the client that raises when it answers [None]. *)
Definition client {A} (r : option A) : M A :=
  match r with
  | Some a => ret a
  | None => raise ClientError
  end.

Definition py_assert (b : bool) (msg : string) : M unit :=
  if b then ret tt else raise (AssertionError msg).

(** [d[key]] *)
Definition getitem {V} (d : gmap string V) (key : string) : M V :=
  match d !! key with
  | Some v => ret v
  | None => raise (KeyError key)
  end.

(** [ctx.obj['deployed_contracts']] is one dictionary, changed in place. *)
Definition modify_deployed
    (f : gmap string (option string) → gmap string (option string)) : M unit :=
  let! o := get_obj in
  set_obj {| obj_deployer := obj_deployer o;
             obj_deployed_contracts := f (obj_deployed_contracts o);
             obj_token_type := obj_token_type o;
             obj_wait := obj_wait o |}.

(** *** validate_address *)

Definition validate_address (value : option string) : exn + option string :=
  if negb (truthy value) then inr None
  else
    let v := default "" value in
    let _ := eth_utils.is_address v in
    match eth_utils.to_checksum_address v with
    | inr a => inr (Some a)
    | inl ValueError => inl (BadParameter "must be a valid ethereum address")
    | inl e => inl e
    end.

(** *** The artifact store *)

Definition new_ContractManager (path : artifact_path) : M ContractManager :=
  let! _ := emit (EvLoadContracts path) in
  let! w := get_world in
  let! cs := client (load_contracts C w path) in
  ret {| contracts := cs; contracts_checksums := None |}.

Definition checksum_contracts (cm : ContractManager) : M ContractManager :=
  let! _ := emit EvChecksumContracts in
  let! w := get_world in
  let! sums := client (source_checksums C w) in
  ret {| contracts := contracts cm; contracts_checksums := Some sums |}.

(** Modelled from the spec: [ContractManager.verify_precompiled_checksums]
    is not among the sources; it is the "checksum-verification step
    comparing source-derived checksums against precompiled artifacts", and
    a mismatch is the error [ChecksumMismatch]. *)
Definition verify_precompiled_checksums
    (cm : ContractManager) (path : artifact_path) : M unit :=
  let! _ := emit (EvVerifyChecksums path) in
  let! w := get_world in
  let! precompiled := client (precompiled_checksums C w path) in
  if decide (contracts_checksums cm = Some precompiled) then ret tt
  else raise ChecksumMismatch.

Definition get_contract (cm : ContractManager) (contract_name : string)
    : M ContractInterface :=
  getitem (contracts cm) contract_name.

Definition get_contract_abi (cm : ContractManager) (contract_name : string)
    : M string :=
  let! i := getitem (contracts cm) contract_name in
  ret (abi i).

(** *** Waiting for a receipt *)

Definition getTransactionReceipt (txhash : string) : M (option Receipt) :=
  let! _ := emit (EvPollReceipt txhash) in
  let! w := get_world in
  let (w', r) := eth_getTransactionReceipt C w txhash in
  let! _ := set_world w' in
  ret r.

Fixpoint wait_for_receipt (polls : nat) (txhash : string) : M Receipt :=
  match polls with
  | O => raise TransactionTimeout
  | S n =>
      let! r := getTransactionReceipt txhash in
      match r with
      | Some receipt => ret receipt
      | None => wait_for_receipt n txhash
      end
  end.

(** Modelled from the spec: [check_succesful_tx] of
    [raiden_contracts.utils.utils] is not among the sources.  A step
    "blocks until its receipt is confirmed or the wait timeout elapses";
    the error is [TransactionTimeout], "receipt not observed within wait
    window".  The window of [wait] seconds is polled once at its start and
    once per elapsed second. *)
Definition check_succesful_tx (txhash : string) (wait : Z) : M Receipt :=
  wait_for_receipt (S (Z.to_nat wait)) txhash.

(** *** ContractDeployer *)

Definition __init__ (private_key : string) (gas_limit gas_price wait : Z)
    : M ContractDeployer :=
  let owner := private_key_to_address C private_key in
  let transaction : gmap string pyval :=
    <["gas_limit" := PyInt gas_limit]> {["from" := PyStr owner]} in
  let transaction :=
    if decide (gas_price ≠ 0)
    then <["gasPrice" := PyInt (gas_price * eth_utils.gwei)]> transaction
    else transaction in
  let! contract_manager := new_ContractManager CONTRACTS_PRECOMPILED_PATH in
  let! contract_manager := new_ContractManager CONTRACTS_SOURCE_DIRS in
  let! contract_manager := checksum_contracts contract_manager in
  let! _ := verify_precompiled_checksums contract_manager
                                         CONTRACTS_PRECOMPILED_PATH in
  ret {| d_private_key := private_key;
         d_wait := wait;
         d_transaction := transaction;
         d_contract_manager := contract_manager |}.

Definition deploy (self : ContractDeployer) (contract_name : string)
    (args : option (list pyval)) : M (option string) :=
  let args := default [] args in
  let! contract_interface :=
    get_contract (d_contract_manager self) contract_name in
  let request := {| dr_contract_name := contract_name;
                    dr_interface := contract_interface;
                    dr_args := args;
                    dr_transaction := d_transaction self;
                    dr_private_key := d_private_key self |} in
  let! _ := emit (EvDeploy request) in
  let! w := get_world in
  let (w', sent) := send_constructor C w request in
  let! _ := set_world w' in
  let! txhash := client sent in
  let! receipt := check_succesful_tx txhash (d_wait self) in
  ret (contractAddress receipt).

(** *** The two deployment pipelines *)

Definition deploy_raiden_contracts (deployer : ContractDeployer)
    : M (gmap string (option string)) :=
  let deployed_contracts : gmap string (option string) := ∅ in
  let! address := deploy deployer CONTRACT_ENDPOINT_REGISTRY None in
  let deployed_contracts :=
    <[CONTRACT_ENDPOINT_REGISTRY := address]> deployed_contracts in
  let! address := deploy deployer CONTRACT_SECRET_REGISTRY None in
  let deployed_contracts :=
    <[CONTRACT_SECRET_REGISTRY := address]> deployed_contracts in
  let! secret_registry :=
    getitem deployed_contracts CONTRACT_SECRET_REGISTRY in
  let! w := get_world in
  let! network := client (version_network C w) in
  let! address :=
    deploy deployer CONTRACT_TOKEN_NETWORK_REGISTRY
           (Some [of_address secret_registry;
                  PyInt network;
                  PyInt DEPLOY_SETTLE_TIMEOUT_MIN;
                  PyInt DEPLOY_SETTLE_TIMEOUT_MAX]) in
  let deployed_contracts :=
    <[CONTRACT_TOKEN_NETWORK_REGISTRY := address]> deployed_contracts in
  ret deployed_contracts.

Definition deploy_token_contract (deployer : ContractDeployer)
    (token_supply : pyval) (token_decimals : Z)
    (token_name token_symbol token_type : string)
    : M (gmap string (option string)) :=
  let deployed_contracts : gmap string (option string) := ∅ in
  let! address :=
    deploy deployer token_type
           (Some [token_supply; PyInt token_decimals;
                  PyStr token_name; PyStr token_symbol]) in
  let deployed_contracts := <[token_type := address]> deployed_contracts in
  let! token_address := getitem deployed_contracts token_type in
  let! _ :=
    py_assert (truthy token_address
               && eth_utils.is_address (default "" token_address)) "" in
  let! token_address :=
    lift (eth_utils.to_checksum_address (default "" token_address)) in
  ret {[token_type := Some token_address]}.

Definition register_token_network (private_key token_registry_abi : string)
    (token_registry_address token_address : option string)
    (wait gas_limit : Z) : M unit :=
  let create := {| fr_abi := token_registry_abi;
                   fr_address := token_registry_address;
                   fr_function := "createERC20TokenNetwork";
                   fr_args := [of_address token_address];
                   fr_transaction := {["gas_limit" := PyInt gas_limit]};
                   fr_private_key := private_key |} in
  let! _ := emit (EvTransact create) in
  let! w := get_world in
  let (w', sent) := send_function C w create in
  let! _ := set_world w' in
  let! txhash := client sent in
  let! receipt := check_succesful_tx txhash wait in
  let lookup := {| fr_abi := token_registry_abi;
                   fr_address := token_registry_address;
                   fr_function := "token_to_token_networks";
                   fr_args := [of_address token_address];
                   fr_transaction := ∅;
                   fr_private_key := private_key |} in
  let! _ := emit (EvCall lookup) in
  let! w := get_world in
  let! token_network := client (call_function C w lookup) in
  emit (EvPrint (OutTokenNetwork token_network (gasUsed receipt))).

(** *** The commands *)

Definition main (rpc_provider private_key : string)
    (wait gas_price gas_limit : Z) : M unit :=
  let! _ := emit (EvPrint (OutProvider rpc_provider)) in
  let! w := get_world in
  let! private_key := client (get_private_key C w private_key) in
  let! _ := py_assert (bool_decide (is_Some private_key)) "" in
  let private_key := default "" private_key in
  let owner := private_key_to_address C private_key in
  let! _ := emit (EvGetBalance owner) in
  let! w := get_world in
  let! balance := client (eth_getBalance C w owner) in
  let! _ := py_assert (0 <? balance)%N "Account with insuficient funds." in
  let! deployer := __init__ private_key gas_limit gas_price wait in
  set_obj {| obj_deployer := deployer;
             obj_deployed_contracts := ∅;
             obj_token_type := "CustomToken";
             obj_wait := wait |}.

Definition raiden : M unit :=
  let! o := get_obj in
  let! deployed_contracts := deploy_raiden_contracts (obj_deployer o) in
  let! _ := emit (EvPrint (OutDeployed deployed_contracts)) in
  modify_deployed (λ d, deployed_contracts ∪ d).

(** [token_supply *= 10 ** token_decimals]: an integer for a non-negative
    exponent, a float for a negative one. *)
Definition scale_supply (token_supply token_decimals : Z) : pyval :=
  if 0 <=? token_decimals then PyInt (token_supply * 10 ^ token_decimals)
  else PyFloat.

Definition token (token_supply : Z) (token_name : string)
    (token_decimals : Z) (token_symbol : string) : M unit :=
  let! o := get_obj in
  let deployer := obj_deployer o in
  let token_supply := scale_supply token_supply token_decimals in
  let! deployed_token :=
    deploy_token_contract deployer token_supply token_decimals token_name
                          token_symbol (obj_token_type o) in
  let! _ := emit (EvPrint (OutDeployed deployed_token)) in
  modify_deployed (λ d, deployed_token ∪ d).

Definition register (token_address registry_address : option string)
    : M unit :=
  let! o := get_obj in
  let token_type := obj_token_type o in
  let deployer := obj_deployer o in
  let! _ :=
    if truthy token_address
    then modify_deployed (λ d, <[token_type := token_address]> d)
    else ret tt in
  let! _ :=
    if truthy registry_address
    then modify_deployed
           (λ d, <[CONTRACT_TOKEN_NETWORK_REGISTRY := registry_address]> d)
    else ret tt in
  let! o := get_obj in
  let! _ :=
    py_assert (bool_decide (is_Some (obj_deployed_contracts o
                                     !! CONTRACT_TOKEN_NETWORK_REGISTRY))) "" in
  let! _ :=
    py_assert (bool_decide (is_Some (obj_deployed_contracts o !! token_type)))
              "" in
  let! abi :=
    get_contract_abi (d_contract_manager deployer)
                     CONTRACT_TOKEN_NETWORK_REGISTRY in
  let! token_registry_address :=
    getitem (obj_deployed_contracts o) CONTRACT_TOKEN_NETWORK_REGISTRY in
  let! token_address := getitem (obj_deployed_contracts o) token_type in
  register_token_network (d_private_key deployer) abi token_registry_address
                         token_address (obj_wait o) 4000000.

(** *** The chained command line

    [click] runs the group callback [main], then builds the context of
    every subcommand on the line, which runs the option callbacks, and
    only then invokes the subcommands in order. *)

Definition make_context (c : subcommand) : exn + subcommand :=
  match c with
  | Register token_address registry_address =>
      match validate_address token_address with
      | inl e => inl e
      | inr token_address =>
          match validate_address registry_address with
          | inl e => inl e
          | inr registry_address =>
              inr (Register token_address registry_address)
          end
      end
  | _ => inr c
  end.

Fixpoint make_contexts (cs : list subcommand) : exn + list subcommand :=
  match cs with
  | [] => inr []
  | c :: cs' =>
      match make_context c with
      | inl e => inl e
      | inr c' =>
          match make_contexts cs' with
          | inl e => inl e
          | inr cs'' => inr (c' :: cs'')
          end
      end
  end.

Definition invoke (c : subcommand) : M unit :=
  match c with
  | Raiden => raiden
  | Token token_supply token_name token_decimals token_symbol =>
      token token_supply token_name token_decimals token_symbol
  | Register token_address registry_address =>
      register token_address registry_address
  end.

Fixpoint invoke_chain (cs : list subcommand) : M unit :=
  match cs with
  | [] => ret tt
  | c :: cs' =>
      let! _ := invoke c in
      invoke_chain cs'
  end.

Definition cli (rpc_provider private_key : string)
    (wait gas_price gas_limit : Z) (commands : list subcommand) : M unit :=
  match commands with
  | [] => raise (UsageError "Missing command.")
  | _ =>
      let! _ := main rpc_provider private_key wait gas_price gas_limit in
      let! contexts := lift (make_contexts commands) in
      invoke_chain contexts
  end.

Definition initial (w : World C) : state :=
  {| world := w; trace := []; obj := None |}.

(** The transaction is not mined during [n] consecutive polls. *)
Inductive unmined (txhash : string) : nat → World C → Prop :=
  | unmined_O w : unmined txhash O w
  | unmined_S n w w' :
      eth_getTransactionReceipt C w txhash = (w', None) →
      unmined txhash n w' →
      unmined txhash (S n) w.

(** The context after the flags of [register] are applied. *)
Definition apply_flags (token_type : string)
    (token_address registry_address : option string)
    (d : gmap string (option string)) : gmap string (option string) :=
  let d := if truthy token_address
           then <[token_type := token_address]> d else d in
  if truthy registry_address
  then <[CONTRACT_TOKEN_NETWORK_REGISTRY := registry_address]> d else d.

(** Two judgements on computations: an invariant of the state that every
    run preserves, and a property of every exception that escapes together
    with the state it leaves. *)
Definition preserves {A} (I : state → Prop) (m : M A) : Prop :=
  ∀ st st' res, m st = (st', res) → I st → I st'.

Definition raises {A} (P : exn → state → Prop) (m : M A) : Prop :=
  ∀ st st' e, m st = (st', inl e) → P e st'.

(** An escaping timeout leaves a trace that ends with a receipt poll. *)
Definition timeout_is_last (e : exn) (st : state) : Prop :=
  e = TransactionTimeout → ∃ pre txhash, trace st = pre ++ [EvPollReceipt txhash].

(** An escaping assertion error carries no message. *)
Definition bare_assertion (e : exn) (st : state) : Prop :=
  ∀ msg, e = AssertionError msg → msg = "".

(** No assertion error escapes. *)
Definition no_assertion (e : exn) (st : state) : Prop :=
  ∀ msg, e ≠ AssertionError msg.

(** *** Notions used in the statements *)

(** The request that [deploy] submits. *)
Definition is_request (self : ContractDeployer) (contract_name : string)
    (args : option (list pyval)) (r : deploy_request) : Prop :=
  dr_contract_name r = contract_name ∧
  contracts (d_contract_manager self) !! contract_name = Some (dr_interface r) ∧
  dr_args r = default [] args ∧
  dr_transaction r = d_transaction self ∧
  dr_private_key r = d_private_key self.

(** The deployments of the raiden pipeline, given the address of the
    secret registry and the network id. *)
Definition raiden_pipeline (secret_registry : option string) (network : Z)
    : list (string * list pyval) :=
  [(CONTRACT_ENDPOINT_REGISTRY, []);
   (CONTRACT_SECRET_REGISTRY, []);
   (CONTRACT_TOKEN_NETWORK_REGISTRY,
    [of_address secret_registry; PyInt network;
     PyInt DEPLOY_SETTLE_TIMEOUT_MIN; PyInt DEPLOY_SETTLE_TIMEOUT_MAX])].

(** The transaction parameters that [__init__] builds. *)
Definition transaction_of (owner : string) (gas_limit gas_price : Z)
    : gmap string pyval :=
  if decide (gas_price ≠ 0)
  then <["gasPrice" := PyInt (gas_price * eth_utils.gwei)]>
         (<["gas_limit" := PyInt gas_limit]> {["from" := PyStr owner]})
  else <["gas_limit" := PyInt gas_limit]> {["from" := PyStr owner]}.

Definition logged (st : state) (evs : list event) : state :=
  {| world := world st; trace := trace st ++ evs; obj := obj st |}.

Definition emits {A} (K : event → Prop) (m : M A) : Prop :=
  ∀ st st' res, m st = (st', res) →
                ∃ evs, trace st' = trace st ++ evs ∧ Forall K evs.

(** The events of the set-up phase, [main]. *)
Definition is_setup (e : event) : Prop :=
  match e with
  | EvPrint (OutProvider _) | EvGetBalance _ | EvLoadContracts _
  | EvChecksumContracts | EvVerifyChecksums _ => True
  | _ => False
  end.

(** The events of the subcommands. *)
Definition is_pipeline (e : event) : Prop :=
  match e with
  | EvPrint (OutDeployed _) | EvPrint (OutTokenNetwork _ _) | EvDeploy _
  | EvTransact _ | EvCall _ | EvPollReceipt _ => True
  | _ => False
  end.

Definition with_deployed (o : ctx_obj) (d : gmap string (option string))
    : ctx_obj :=
  {| obj_deployer := obj_deployer o;
     obj_deployed_contracts := d;
     obj_token_type := obj_token_type o;
     obj_wait := obj_wait o |}.

(** The checksum casing of a normalized body. *)
Definition checksum_of (body : string) : string :=
  eth_utils.checksum_case
    body
    (eth_utils.nibbles (Keccak.keccak256 (eth_utils.bytes_of_text body))).

(** The requests on the token network registry, as [register] makes them:
    the transaction with a gas limit of 4000000 and nothing else in its
    parameters, the read-only call without parameters. *)
Definition registry_request (e : event) : Prop :=
  match e with
  | EvTransact r =>
      fr_function r = "createERC20TokenNetwork" ∧
      fr_transaction r = {["gas_limit" := PyInt 4000000]} ∧
      length (fr_args r) = 1%nat
  | EvCall r =>
      fr_function r = "token_to_token_networks" ∧
      fr_transaction r = ∅ ∧
      length (fr_args r) = 1%nat
  | _ => True
  end.

(** A deployment is signed with the given key, carries the given
    transaction parameters, and its ABI and bytecode are those that the
    given artifacts have under the name of the contract. *)
Definition deployed_with (private_key : string)
    (transaction : gmap string pyval)
    (artifacts : gmap string ContractInterface) (e : event) : Prop :=
  match e with
  | EvDeploy r =>
      dr_private_key r = private_key ∧
      dr_transaction r = transaction ∧
      artifacts !! dr_contract_name r = Some (dr_interface r)
  | _ => True
  end.

(** A deployment is made with the key, the transaction parameters and the
    artifacts of the deployer [d]. *)
Definition deployed_by (d : ContractDeployer) : event → Prop :=
  deployed_with (d_private_key d) (d_transaction d)
                (contracts (d_contract_manager d)).

(** No request on a deployed contract. *)
Definition no_request (e : event) : Prop :=
  match e with
  | EvTransact _ | EvCall _ => False
  | _ => True
  end.

(** A client that, on the worlds of [I], knows the network id, accepts
    every constructor transaction and has its receipt at the first poll,
    which leaves a world of [I] again. *)
Definition mines (I : World C → Prop) : Prop :=
  ∀ w, I w →
       is_Some (version_network C w) ∧
       ∀ r, ∃ w1 tx w2 receipt,
              send_constructor C w r = (w1, Some tx) ∧
              eth_getTransactionReceipt C w1 tx = (w2, Some receipt) ∧
              I w2.


(** The artifact store is readable: both loads and both checksum
    computations answer. *)
Definition readable_artifacts (w : World C) : Prop :=
  is_Some (load_contracts C w CONTRACTS_PRECOMPILED_PATH) ∧
  is_Some (load_contracts C w CONTRACTS_SOURCE_DIRS) ∧
  is_Some (source_checksums C w) ∧
  is_Some (precompiled_checksums C w CONTRACTS_PRECOMPILED_PATH).

(** ** Reasoning about the monad *)

Lemma bind_inv {A B} (m : M A) (k : A → M B) s s' r :
  bind m k s = (s', r) →
  (∃ e, m s = (s', inl e) ∧ r = inl e) ∨
  (∃ s1 a, m s = (s1, inr a) ∧ k a s1 = (s', r)).
Proof.
  unfold bind. destruct (m s) as [s1 [e|a]]; intros H.
  - left. exists e. by simplify_eq.
  - right. by exists s1, a.
Qed.

Lemma bind_ok {A B} (m : M A) (k : A → M B) s s1 a :
  m s = (s1, inr a) → bind m k s = k a s1.
Proof. unfold bind. by intros ->. Qed.

Lemma bind_raise {A B} (m : M A) (k : A → M B) s s1 e :
  m s = (s1, inl e) → bind m k s = (s1, inl e).
Proof. unfold bind. by intros ->. Qed.

(** Split a hypothesis [bind m k s = (s', r)] into its two outcomes. *)
Ltac minv H :=
  let e := fresh "e" in
  let s1 := fresh "s" in
  let a := fresh "a" in
  let Hm := fresh "Hm" in
  let Hr := fresh "Hr" in
  apply bind_inv in H as [(e & Hm & Hr) | (s1 & a & Hm & H)];
  [first [discriminate Hr | injection Hr as Hr; subst | subst]|].

(** Primitive actions, evaluated. *)
Ltac prim :=
  unfold lift, client, py_assert, getitem, emit, get_world, set_world,
    set_obj, get_obj, ret, raise in *;
  simpl in *.

Lemma deployments_app t1 t2 :
  deployments (t1 ++ t2) = deployments t1 ++ deployments t2.
Proof. apply omap_app. Qed.

Lemma verifications_app t1 t2 :
  verifications (t1 ++ t2) = verifications t1 ++ verifications t2.
Proof. apply omap_app. Qed.

Lemma polls_app t1 t2 : polls (t1 ++ t2) = polls t1 ++ polls t2.
Proof. apply omap_app. Qed.

Lemma balance_checks_app t1 t2 :
  balance_checks (t1 ++ t2) = balance_checks t1 ++ balance_checks t2.
Proof. apply omap_app. Qed.

Lemma deployments_polls k tx :
  deployments (replicate k (EvPollReceipt tx)) = [].
Proof. induction k; [done | by simpl]. Qed.

Lemma verifications_polls k tx :
  verifications (replicate k (EvPollReceipt tx)) = [].
Proof. induction k; [done | by simpl]. Qed.

Lemma polls_polls k tx :
  polls (replicate k (EvPollReceipt tx)) = replicate k tx.
Proof. induction k; [done | simpl; by f_equal]. Qed.

(** ** Waiting for a receipt *)

Lemma getTransactionReceipt_eq tx st :
  getTransactionReceipt tx st =
  ({| world := (eth_getTransactionReceipt C (world st) tx).1;
      trace := trace st ++ [EvPollReceipt tx];
      obj := obj st |},
   inr (eth_getTransactionReceipt C (world st) tx).2).
Proof.
  unfold getTransactionReceipt, bind. prim.
  by destruct (eth_getTransactionReceipt C (world st) tx).
Qed.

(** A wait either times out after exactly [n] polls that all found the
    transaction unmined, or returns the receipt the client gave at the
    last of at most [n] polls. *)
Lemma wait_for_receipt_spec n tx st st' res :
  wait_for_receipt n tx st = (st', res) →
  obj st' = obj st ∧
  ∃ k, (k ≤ n)%nat ∧
       trace st' = trace st ++ replicate k (EvPollReceipt tx) ∧
       match res with
       | inl e => e = TransactionTimeout ∧ k = n ∧ unmined tx n (world st)
       | inr r =>
           (1 ≤ k)%nat ∧
           ∃ w, eth_getTransactionReceipt C w tx = (world st', Some r)
       end.
Proof.
  revert st. induction n as [|n IH]; intros st H; simpl in H.
  - prim. simplify_eq. split; [done|]. exists O.
    rewrite app_nil_r. repeat split; [lia | constructor].
  - unfold bind in H. rewrite getTransactionReceipt_eq in H.
    destruct (eth_getTransactionReceipt C (world st) tx) as [w' [r|]] eqn:Hpoll;
      simpl in H.
    + prim. simplify_eq. simpl. split; [done|]. exists 1%nat.
      repeat split; [lia | lia | eauto].
    + apply IH in H as (Hobj & k & Hk & Htr & Hres). simpl in *.
      split; [done|]. exists (S k). split; [lia|]. split.
      { rewrite Htr, <- app_assoc. done. }
      destruct res as [e|r].
      * destruct Hres as (-> & -> & Hun). repeat split.
        econstructor; eauto.
      * destruct Hres as (? & w & Hw). split; [lia | eauto].
Qed.

Lemma wait_for_receipt_unmined n tx st :
  unmined tx n (world st) →
  ∃ st', wait_for_receipt n tx st = (st', inl TransactionTimeout).
Proof.
  revert st. induction n as [|n IH]; intros st Hun.
  - by eexists.
  - inversion Hun as [|? ? w' Hpoll Hun']; subst. simpl.
    unfold bind, getTransactionReceipt, bind. prim. rewrite Hpoll. simpl.
    apply (IH {| world := w'; trace := trace st ++ [EvPollReceipt tx];
                 obj := obj st |}).
    done.
Qed.

(** ** Rules for the two judgements *)

Section Rules.

Context {A B : Type}.
Implicit Types (I : state → Prop) (P : exn → state → Prop).

Lemma preserves_bind I (m : M A) (k : A → M B) :
  preserves I m → (∀ a, preserves I (k a)) → preserves I (bind m k).
Proof.
  intros Hm Hk st st' res H HI. minv H.
  - eapply Hm; eauto.
  - eapply Hk; eauto.
Qed.

Lemma preserves_ret I (a : A) : preserves I (ret a).
Proof. intros st st' res H HI. prim. by simplify_eq. Qed.

Lemma preserves_raise I e : preserves I (raise (A:=A) e).
Proof. intros st st' res H HI. prim. by simplify_eq. Qed.

Lemma preserves_lift I (r : exn + A) : preserves I (lift r).
Proof. intros st st' res H HI. destruct r; prim; by simplify_eq. Qed.

Lemma preserves_client I (r : option A) : preserves I (client r).
Proof. intros st st' res H HI. destruct r; prim; by simplify_eq. Qed.

Lemma preserves_getitem I (d : gmap string A) key :
  preserves I (getitem d key).
Proof.
  intros st st' res H HI. unfold getitem in H.
  destruct (d !! key); prim; by simplify_eq.
Qed.

Lemma raises_bind P (m : M A) (k : A → M B) :
  raises P m → (∀ a, raises P (k a)) → raises P (bind m k).
Proof.
  intros Hm Hk st st' e H. minv H.
  - eapply Hm; eauto.
  - eapply Hk; eauto.
Qed.

Lemma raises_ret P (a : A) : raises P (ret a).
Proof. intros st st' e H. prim. by simplify_eq. Qed.

Lemma raises_raise P e :
  (∀ st, P e st) → raises P (raise (A:=A) e).
Proof. intros HP st st' e' H. prim. by simplify_eq. Qed.

Lemma raises_client P (r : option A) :
  (∀ st, P ClientError st) → raises P (client r).
Proof. intros HP st st' e H. destruct r; prim; by simplify_eq. Qed.

Lemma raises_getitem P (d : gmap string A) key :
  (∀ st, P (KeyError key) st) → raises P (getitem d key).
Proof.
  intros HP st st' e H. unfold getitem in H.
  destruct (d !! key); prim; by simplify_eq.
Qed.

Lemma raises_lift P (r : exn + A) :
  (∀ e st, r = inl e → P e st) → raises P (lift r).
Proof. intros HP st st' e H. destruct r; prim; simplify_eq. by apply HP. Qed.

End Rules.

Section UnitRules.

Implicit Types (I : state → Prop) (P : exn → state → Prop).

Lemma preserves_emit I e :
  (∀ st, I st → I {| world := world st; trace := trace st ++ [e];
                     obj := obj st |}) →
  preserves I (emit e).
Proof. intros HI st st' res H Hst. prim. simplify_eq. by apply HI. Qed.

Lemma preserves_get_world I : preserves I get_world.
Proof. intros st st' res H HI. prim. by simplify_eq. Qed.

Lemma preserves_get_obj I : preserves I get_obj.
Proof.
  intros st st' res H HI. unfold get_obj in H.
  destruct (obj st); by simplify_eq.
Qed.

Lemma preserves_set_world I w :
  (∀ st, I st → I {| world := w; trace := trace st; obj := obj st |}) →
  preserves I (set_world w).
Proof. intros HI st st' res H Hst. prim. simplify_eq. by apply HI. Qed.

Lemma preserves_set_obj I o :
  (∀ st, I st → I {| world := world st; trace := trace st;
                     obj := Some o |}) →
  preserves I (set_obj o).
Proof. intros HI st st' res H Hst. prim. simplify_eq. by apply HI. Qed.

Lemma preserves_py_assert I b msg : preserves I (py_assert b msg).
Proof. intros st st' res H HI. destruct b; prim; by simplify_eq. Qed.

Lemma raises_emit P e : raises P (emit e).
Proof. intros st st' e' H. prim. by simplify_eq. Qed.

Lemma raises_get_world P : raises P get_world.
Proof. intros st st' e' H. prim. by simplify_eq. Qed.

Lemma raises_set_world P w : raises P (set_world w).
Proof. intros st st' e' H. prim. by simplify_eq. Qed.

Lemma raises_set_obj P o : raises P (set_obj o).
Proof. intros st st' e' H. prim. by simplify_eq. Qed.

Lemma raises_get_obj P : (∀ st, P TypeError st) → raises P get_obj.
Proof.
  intros HP st st' e H. unfold get_obj in H.
  destruct (obj st); by simplify_eq.
Qed.

Lemma raises_py_assert P b msg :
  (∀ st, P (AssertionError msg) st) → raises P (py_assert b msg).
Proof. intros HP st st' e H. destruct b; prim; by simplify_eq. Qed.

End UnitRules.

(** ** One deployment *)

(** The possible courses of one call of [deploy]: the contract is unknown;
    the client refuses the transaction; the wait times out; the receipt
    arrives and its address is returned. *)
Lemma deploy_spec self n args st st' res :
  deploy self n args st = (st', res) →
  obj st' = obj st ∧
  ((contracts (d_contract_manager self) !! n = None ∧
    st' = st ∧ res = inl (KeyError n)) ∨
   ∃ r w' sent,
     is_request self n args r ∧
     send_constructor C (world st) r = (w', sent) ∧
     match sent with
     | None =>
         res = inl ClientError ∧ world st' = w' ∧
         trace st' = trace st ++ [EvDeploy r]
     | Some tx =>
         ∃ k, (1 ≤ k ≤ S (Z.to_nat (d_wait self)))%nat ∧
              trace st' =
                trace st ++ EvDeploy r :: replicate k (EvPollReceipt tx) ∧
              match res with
              | inl e =>
                  e = TransactionTimeout ∧ k = S (Z.to_nat (d_wait self)) ∧
                  unmined tx k w'
              | inr a =>
                  ∃ w receipt,
                    eth_getTransactionReceipt C w tx
                      = (world st', Some receipt) ∧
                    a = contractAddress receipt
              end
     end).
Proof.
  unfold deploy, get_contract, getitem. intros H.
  destruct (contracts (d_contract_manager self) !! n) as [ci|] eqn:Hci.
  2:{ prim. unfold bind in H. simpl in H. simplify_eq. auto. }
  unfold bind in H. prim.
  match type of H with
  | context [send_constructor C (world st) ?r] => set (req := r) in *
  end.
  destruct (send_constructor C (world st) req) as [w' [tx|]] eqn:Hsend;
    simpl in H.
  2:{ simplify_eq. simpl. split; [done|]. right. exists req, w', None.
      repeat split; done. }
  unfold check_succesful_tx in H.
  destruct (wait_for_receipt _ _ _) as [st1 r1] eqn:Hwait.
  apply wait_for_receipt_spec in Hwait as (Hobj & k & Hk & Htr & Hres).
  simpl in *.
  assert (Hout : st' = st1 ∧
                 res = match r1 with
                       | inl e => inl e
                       | inr rc => inr (contractAddress rc)
                       end)
    by (destruct r1; simplify_eq; done).
  destruct Hout as [-> ->]. clear H.
  split; [done|]. right. exists req, w', (Some tx).
  split; [repeat split; done|]. split; [done|].
  destruct r1 as [e|rc].
  - destruct Hres as (-> & -> & Hun). exists (S (Z.to_nat (d_wait self))).
    split; [lia|]. split; [by rewrite Htr, <- app_assoc|]. done.
  - destruct Hres as (Hk1 & w & Hw). exists k.
    split; [lia|]. split; [by rewrite Htr, <- app_assoc|]. eauto.
Qed.

(** What one call of [deploy] adds to the trace: at most one deployment,
    which is for the contract and the arguments of the call; no checksum
    verification and no balance check. *)
Lemma deploy_trace self n args st st' res :
  deploy self n args st = (st', res) →
  obj st' = obj st ∧
  ∃ evs, trace st' = trace st ++ evs ∧
         verifications evs = [] ∧
         balance_checks evs = [] ∧
         (deployments evs = [] ∨ deployments evs = [(n, default [] args)]) ∧
         (∀ a, res = inr a → deployments evs = [(n, default [] args)]) ∧
         (res = inl TransactionTimeout →
          deployments evs = [(n, default [] args)] ∧
          ∃ pre tx, evs = pre ++ [EvPollReceipt tx]) ∧
         (∀ msg, res ≠ inl (AssertionError msg)) ∧
         (is_Some (contracts (d_contract_manager self) !! n) →
          deployments evs = [(n, default [] args)]).
Proof.
  intros H. apply deploy_spec in H as [Hobj H]. split; [done|].
  destruct H as [(Hnone & -> & ->) | (r & w' & sent & Hreq & Hsend & H)].
  - exists []. rewrite app_nil_r. repeat split; auto; try done.
    rewrite Hnone. by intros [? ?].
  - destruct Hreq as (Hn & Hci & Hargs & _).
    destruct sent as [tx|].
    + destruct H as (k & Hk & Htr & Hres).
      exists (EvDeploy r :: replicate k (EvPollReceipt tx)).
      split; [done|].
      assert (Hd : deployments (EvDeploy r :: replicate k (EvPollReceipt tx))
                   = [(n, default [] args)]).
      { change (EvDeploy r :: ?l) with ([EvDeploy r] ++ l).
        rewrite deployments_app, deployments_polls. simpl.
        by rewrite Hn, Hargs. }
      split.
      { change (EvDeploy r :: ?l) with ([EvDeploy r] ++ l).
        by rewrite verifications_app, verifications_polls. }
      split.
      { change (EvDeploy r :: ?l) with ([EvDeploy r] ++ l).
        rewrite balance_checks_app. simpl. clear. by induction k. }
      repeat split; auto.
      * destruct k as [|k]; [lia|].
        exists (EvDeploy r :: replicate k (EvPollReceipt tx)), tx.
        rewrite replicate_S_end. done.
      * intros msg ->. by destruct Hres.
    + destruct H as (-> & Hw & Htr). exists [EvDeploy r].
      repeat split; auto; try done.
      * right. simpl. by rewrite Hn, Hargs.
      * intros _. simpl. by rewrite Hn, Hargs.
Qed.

(** ** The raiden pipeline *)

(** The course of [deploy_raiden_contracts], step by step. *)
Lemma deploy_raiden_contracts_spec deployer st st' res :
  deploy_raiden_contracts deployer st = (st', res) →
  (∃ e, res = inl e ∧
        deploy deployer CONTRACT_ENDPOINT_REGISTRY None st = (st', inl e)) ∨
  ∃ st1 a1,
    deploy deployer CONTRACT_ENDPOINT_REGISTRY None st = (st1, inr a1) ∧
    ((∃ e, res = inl e ∧
           deploy deployer CONTRACT_SECRET_REGISTRY None st1 = (st', inl e)) ∨
     ∃ st2 a2,
       deploy deployer CONTRACT_SECRET_REGISTRY None st1 = (st2, inr a2) ∧
       ((version_network C (world st2) = None ∧
         st' = st2 ∧ res = inl ClientError) ∨
        ∃ network,
          version_network C (world st2) = Some network ∧
          ∃ r3,
            deploy deployer CONTRACT_TOKEN_NETWORK_REGISTRY
                   (Some [of_address a2; PyInt network;
                          PyInt DEPLOY_SETTLE_TIMEOUT_MIN;
                          PyInt DEPLOY_SETTLE_TIMEOUT_MAX]) st2 = (st', r3) ∧
            res = match r3 with
                  | inl e => inl e
                  | inr a3 =>
                      inr (<[CONTRACT_TOKEN_NETWORK_REGISTRY := a3]>
                             (<[CONTRACT_SECRET_REGISTRY := a2]>
                                (<[CONTRACT_ENDPOINT_REGISTRY := a1]> ∅)))
                  end)).
Proof.
  unfold deploy_raiden_contracts. intros H.
  unfold bind at 1 in H.
  destruct (deploy deployer CONTRACT_ENDPOINT_REGISTRY None st)
    as [st1 [e1|a1]] eqn:H1.
  { simplify_eq. left. eauto. }
  right. exists st1, a1. split; [done|].
  unfold bind at 1 in H.
  destruct (deploy deployer CONTRACT_SECRET_REGISTRY None st1)
    as [st2 [e2|a2]] eqn:H2.
  { simplify_eq. left. eauto. }
  right. exists st2, a2. split; [done|].
  unfold bind at 1 in H. unfold getitem in H.
  rewrite lookup_insert_eq in H. prim.
  unfold bind at 1 in H. simpl in H.
  unfold bind at 1 in H.
  destruct (version_network C (world st2)) as [network|] eqn:Hnet; simpl in H.
  2:{ simplify_eq. left. done. }
  right. exists network. split; [done|].
  unfold bind in H.
  destruct (deploy deployer CONTRACT_TOKEN_NETWORK_REGISTRY _ st2)
    as [st3 [e3|a3]] eqn:H3.
  - simplify_eq. exists (inl e3). done.
  - simplify_eq. exists (inr a3). done.
Qed.

(** On a client that mines, a deployment of a known contract succeeds at
    the first poll. *)
Lemma deploy_mines I self n args st :
  mines I → I (world st) →
  is_Some (contracts (d_contract_manager self) !! n) →
  ∃ st' a, deploy self n args st = (st', inr a) ∧ I (world st').
Proof.
  intros Hm HI [ci Hci]. destruct (Hm _ HI) as [_ Hsend].
  unfold deploy, get_contract, getitem. rewrite Hci. unfold bind. prim.
  match goal with
  | |- context [send_constructor C (world st) ?r] =>
      destruct (Hsend r) as (w1 & tx & w2 & receipt & -> & Hpoll & HI2)
  end.
  simpl. unfold check_succesful_tx. simpl. unfold bind.
  rewrite getTransactionReceipt_eq. simpl. rewrite Hpoll. simpl.
  eexists _, _. split; [reflexivity|]. done.
Qed.

(** C2. In every run of the raiden pipeline the deployments submitted are,
    in order, a prefix of: the endpoint registry without arguments, the
    secret registry without arguments, the token network registry with
    the arguments (secret registry address, network id, minimum settle
    timeout, maximum settle timeout).  When the third deployment is
    submitted, its first argument is the address that the immediately
    preceding deployment, of the secret registry, returned; a successful
    run submits all three.  The pipeline does run: with the three
    contracts among the artifacts, the endpoint registry is always
    submitted, and on a client that mines the run succeeds, having
    submitted exactly the three deployments in this order and returning
    the three addresses. *)
Theorem raiden_deployment_order deployer st :
  let run := deploy_raiden_contracts deployer st in
  (∃ evs secret_registry network,
     trace run.1 = trace st ++ evs ∧
     deployments evs `prefix_of` raiden_pipeline secret_registry network ∧
     (deployments evs = raiden_pipeline secret_registry network →
      ∃ st1 a1 st2,
        deploy deployer CONTRACT_ENDPOINT_REGISTRY None st = (st1, inr a1) ∧
        deploy deployer CONTRACT_SECRET_REGISTRY None st1
          = (st2, inr secret_registry) ∧
        version_network C (world st2) = Some network) ∧
     (∀ m, run.2 = inr m →
           deployments evs = raiden_pipeline secret_registry network ∧
           m !! CONTRACT_SECRET_REGISTRY = Some secret_registry) ∧
     (is_Some (contracts (d_contract_manager deployer)
               !! CONTRACT_ENDPOINT_REGISTRY) →
      ∃ rest, deployments evs = (CONTRACT_ENDPOINT_REGISTRY, []) :: rest)) ∧
  (∀ I,
     mines I → I (world st) →
     (∀ n, n ∈ [CONTRACT_ENDPOINT_REGISTRY; CONTRACT_SECRET_REGISTRY;
                CONTRACT_TOKEN_NETWORK_REGISTRY] →
           is_Some (contracts (d_contract_manager deployer) !! n)) →
     ∃ evs a1 a2 a3 network,
       run.2 = inr (<[CONTRACT_TOKEN_NETWORK_REGISTRY := a3]>
                      (<[CONTRACT_SECRET_REGISTRY := a2]>
                         (<[CONTRACT_ENDPOINT_REGISTRY := a1]> ∅))) ∧
       trace run.1 = trace st ++ evs ∧
       deployments evs = raiden_pipeline a2 network).
Proof.
  cbv zeta.
  destruct (deploy_raiden_contracts deployer st) as [st' res] eqn:H.
  cbn [fst snd]. apply deploy_raiden_contracts_spec in H.
  assert (Hsafe :
    ∃ evs secret_registry network,
      trace st' = trace st ++ evs ∧
      deployments evs `prefix_of` raiden_pipeline secret_registry network ∧
      (deployments evs = raiden_pipeline secret_registry network →
       ∃ st1 a1 st2,
         deploy deployer CONTRACT_ENDPOINT_REGISTRY None st = (st1, inr a1) ∧
         deploy deployer CONTRACT_SECRET_REGISTRY None st1
           = (st2, inr secret_registry) ∧
         version_network C (world st2) = Some network) ∧
      (∀ m, res = inr m →
            deployments evs = raiden_pipeline secret_registry network ∧
            m !! CONTRACT_SECRET_REGISTRY = Some secret_registry) ∧
      (is_Some (contracts (d_contract_manager deployer)
                !! CONTRACT_ENDPOINT_REGISTRY) →
       ∃ rest, deployments evs = (CONTRACT_ENDPOINT_REGISTRY, []) :: rest)).
  { destruct H as [(e & -> & H1) | (st1 & a1 & H1 & H)].
    { apply deploy_trace in H1 as (_ & evs & Htr & _ & _ & Hd & _ & _ & _ & Hk).
      exists evs, None, 0. split; [done|]. split.
      - destruct Hd as [-> | ->]; [apply prefix_nil|]. by eexists.
      - split; [destruct Hd as [-> | ->]; done|]. split; [done|].
        intros Hci. rewrite (Hk Hci). by eexists. }
    pose proof H1 as H1'.
    apply deploy_trace in H1' as (_ & evs1 & Htr1 & _ & _ & _ & Hd1 & _).
    specialize (Hd1 _ eq_refl).
    destruct H as [(e & -> & H2) | (st2 & a2 & H2 & H)].
    { apply deploy_trace in H2 as (_ & evs2 & Htr2 & _ & _ & Hd & _).
      exists (evs1 ++ evs2), None, 0.
      split; [by rewrite Htr2, Htr1, app_assoc|].
      rewrite deployments_app, Hd1. split.
      - destruct Hd as [-> | ->]; [by eexists | by eexists].
      - split; [destruct Hd as [-> | ->]; done|]. split; [done|].
        intros _. by eexists. }
    pose proof H2 as H2'.
    apply deploy_trace in H2' as (_ & evs2 & Htr2 & _ & _ & _ & Hd2 & _).
    specialize (Hd2 _ eq_refl).
    destruct H as [(Hnet & -> & ->) | (network & Hnet & r3 & H3 & ->)].
    { exists (evs1 ++ evs2), a2, 0.
      split; [by rewrite Htr2, Htr1, app_assoc|].
      rewrite deployments_app, Hd1, Hd2. split; [by eexists|].
      split; [done|]. split; [intros m Hm; discriminate Hm|].
      intros _. by eexists. }
    apply deploy_trace in H3 as (_ & evs3 & Htr3 & _ & _ & Hd & Hd3 & _).
    exists (evs1 ++ evs2 ++ evs3), a2, network.
    split; [by rewrite Htr3, Htr2, Htr1, <- !app_assoc|].
    rewrite !deployments_app, Hd1, Hd2. split.
    { destruct Hd as [-> | ->]; [by eexists | done]. }
    split.
    { intros _. by exists st1, a1, st2. }
    split; [|intros _; by eexists].
    intros m Hm. destruct r3 as [e3|a3]; [done|].
    rewrite (Hd3 _ eq_refl). split; [done|]. simplify_eq.
    rewrite lookup_insert_ne by done. by rewrite lookup_insert_eq. }
  split; [exact Hsafe|].
  intros I Hm HI Hknown.
  destruct (deploy_mines I deployer CONTRACT_ENDPOINT_REGISTRY None st Hm HI)
    as (s1 & b1 & Hd1 & HI1); [apply Hknown; repeat constructor|].
  destruct (deploy_mines I deployer CONTRACT_SECRET_REGISTRY None s1 Hm HI1)
    as (s2 & b2 & Hd2 & HI2); [apply Hknown; repeat constructor|].
  destruct (Hm _ HI2) as [[net Hnet] _].
  destruct (deploy_mines I deployer CONTRACT_TOKEN_NETWORK_REGISTRY
              (Some [of_address b2; PyInt net;
                     PyInt DEPLOY_SETTLE_TIMEOUT_MIN;
                     PyInt DEPLOY_SETTLE_TIMEOUT_MAX]) s2 Hm HI2)
    as (s3 & b3 & Hd3 & HI3); [apply Hknown; repeat constructor|].
  destruct H as [(e & -> & H1) | (st1 & a1 & H1 & H)]; [congruence|].
  assert (st1 = s1 ∧ a1 = b1) as [-> ->] by (split; congruence).
  destruct H as [(e & -> & H2) | (st2 & a2 & H2 & H)]; [congruence|].
  assert (st2 = s2 ∧ a2 = b2) as [-> ->] by (split; congruence).
  destruct H as [(Hnone & _) | (network & Hnet' & r3 & H3 & ->)];
    [congruence|].
  assert (network = net) as -> by congruence.
  assert (st' = s3 ∧ r3 = inr b3) as [-> ->] by (split; congruence).
  destruct Hsafe as (evs & secret & network & Htr & _ & _ & Hok & _).
  destruct (Hok _ eq_refl) as [Hd Hsec].
  rewrite lookup_insert_ne in Hsec by done.
  rewrite lookup_insert_eq in Hsec. injection Hsec as <-.
  exists evs, b1, b2, b3, network. done.
Qed.

(** ** Construction of the deployer *)

(** [__init__], computed: the four accesses to the artifact store in
    order, each of which can fail, then the comparison of checksums. *)
Lemma __init___eq private_key gas_limit gas_price wait st :
  __init__ private_key gas_limit gas_price wait st =
  let w := world st in
  let l1 := [EvLoadContracts CONTRACTS_PRECOMPILED_PATH] in
  let l2 := l1 ++ [EvLoadContracts CONTRACTS_SOURCE_DIRS] in
  let l3 := l2 ++ [EvChecksumContracts] in
  let l4 := l3 ++ [EvVerifyChecksums CONTRACTS_PRECOMPILED_PATH] in
  match load_contracts C w CONTRACTS_PRECOMPILED_PATH with
  | None => (logged st l1, inl ClientError)
  | Some _ =>
      match load_contracts C w CONTRACTS_SOURCE_DIRS with
      | None => (logged st l2, inl ClientError)
      | Some cs =>
          match source_checksums C w with
          | None => (logged st l3, inl ClientError)
          | Some sums =>
              match precompiled_checksums C w CONTRACTS_PRECOMPILED_PATH with
              | None => (logged st l4, inl ClientError)
              | Some precompiled =>
                  if decide (sums = precompiled)
                  then (logged st l4,
                        inr {| d_private_key := private_key;
                               d_wait := wait;
                               d_transaction :=
                                 transaction_of
                                   (private_key_to_address C private_key)
                                   gas_limit gas_price;
                               d_contract_manager :=
                                 {| contracts := cs;
                                    contracts_checksums := Some sums |} |})
                  else (logged st l4, inl ChecksumMismatch)
              end
          end
      end
  end.
Proof.
  unfold __init__, new_ContractManager, checksum_contracts,
    verify_precompiled_checksums, transaction_of, logged, bind.
  prim.
  destruct (load_contracts C (world st) CONTRACTS_PRECOMPILED_PATH);
    simpl; [|done].
  destruct (load_contracts C (world st) CONTRACTS_SOURCE_DIRS);
    simpl; [|by rewrite <- app_assoc].
  destruct (source_checksums C (world st)) as [sums|];
    simpl; [|by rewrite <- !app_assoc].
  destruct (precompiled_checksums C (world st) CONTRACTS_PRECOMPILED_PATH)
    as [pc|]; simpl; [|by rewrite <- !app_assoc].
  destruct (decide (Some sums = Some pc)) as [Heq|Hne];
    destruct (decide (sums = pc)) as [Heq'|Hne']; simpl;
    try (rewrite <- !app_assoc; done); congruence.
Qed.

(** C9. A constructed deployer has the fields [from] and [gas_limit] in
    its transaction parameters; with gas price 0 there is no [gasPrice]
    field, with a nonzero gas price the field is the price times 10^9
    (gwei to wei); there is no other field. *)
Theorem transaction_parameters private_key gas_limit gas_price wait st st' d :
  __init__ private_key gas_limit gas_price wait st = (st', inr d) →
  d_transaction d !! "from"
    = Some (PyStr (private_key_to_address C private_key)) ∧
  d_transaction d !! "gas_limit" = Some (PyInt gas_limit) ∧
  (gas_price = 0 → d_transaction d !! "gasPrice" = None) ∧
  (gas_price ≠ 0 →
   d_transaction d !! "gasPrice" = Some (PyInt (gas_price * 10 ^ 9))) ∧
  dom (d_transaction d) ⊆ {["from"; "gas_limit"; "gasPrice"]}.
Proof.
  rewrite __init___eq. cbv zeta.
  intros Hinit. repeat case_match; simplify_eq. simpl.
  unfold transaction_of.
  destruct (decide (gas_price ≠ 0)) as [Hne|Heq];
    repeat split;
    try (intros; by simplify_map_eq);
    try (rewrite !dom_insert_L, dom_singleton_L; set_solver).
Qed.

(** ** Which events a computation emits *)

Section EmitRules.

Context {A B : Type} (K : event → Prop).

Lemma emits_silent (m : M A) :
  (∀ st st' res, m st = (st', res) → trace st' = trace st) → emits K m.
Proof.
  intros Hm st st' res H. exists []. rewrite app_nil_r. eauto.
Qed.

Lemma emits_bind (m : M A) (k : A → M B) :
  emits K m → (∀ a, emits K (k a)) → emits K (bind m k).
Proof.
  intros Hm Hk st st' res H. minv H.
  - eapply Hm; eauto.
  - apply Hm in Hm0 as (evs1 & Htr1 & HK1).
    apply Hk in H as (evs2 & Htr2 & HK2).
    exists (evs1 ++ evs2). split.
    + by rewrite Htr2, Htr1, app_assoc.
    + by apply Forall_app.
Qed.

Lemma emits_ret (a : A) : emits K (ret a).
Proof. apply emits_silent. intros st st' res H. prim. by simplify_eq. Qed.

Lemma emits_raise e : emits K (raise (A:=A) e).
Proof. apply emits_silent. intros st st' res H. prim. by simplify_eq. Qed.

Lemma emits_lift (r : exn + A) : emits K (lift r).
Proof.
  apply emits_silent. intros st st' res H. destruct r; prim; by simplify_eq.
Qed.

Lemma emits_client (r : option A) : emits K (client r).
Proof.
  apply emits_silent. intros st st' res H. destruct r; prim; by simplify_eq.
Qed.

Lemma emits_getitem (d : gmap string A) key : emits K (getitem d key).
Proof.
  apply emits_silent. intros st st' res H. unfold getitem in H.
  destruct (d !! key); prim; by simplify_eq.
Qed.

End EmitRules.

Section EmitUnitRules.

Context (K : event → Prop).

Lemma emits_emit e : K e → emits K (emit e).
Proof.
  intros HK st st' res H. prim. simplify_eq. exists [e]. simpl. auto.
Qed.

Lemma emits_get_world : emits K get_world.
Proof. apply emits_silent. intros st st' res H. prim. by simplify_eq. Qed.

Lemma emits_set_world w : emits K (set_world w).
Proof. apply emits_silent. intros st st' res H. prim. by simplify_eq. Qed.

Lemma emits_set_obj o : emits K (set_obj o).
Proof. apply emits_silent. intros st st' res H. prim. by simplify_eq. Qed.

Lemma emits_get_obj : emits K get_obj.
Proof.
  apply emits_silent. intros st st' res H. unfold get_obj in H.
  destruct (obj st); by simplify_eq.
Qed.

Lemma emits_py_assert b msg : emits K (py_assert b msg).
Proof.
  apply emits_silent. intros st st' res H. destruct b; prim; by simplify_eq.
Qed.

End EmitUnitRules.

Create HintDb judge discriminated.

Hint Resolve preserves_ret preserves_raise preserves_lift preserves_client
  preserves_getitem preserves_get_world preserves_get_obj
  preserves_py_assert raises_ret raises_emit raises_get_world
  raises_set_world raises_set_obj emits_ret emits_raise emits_lift
  emits_client emits_getitem emits_get_world emits_set_world emits_set_obj
  emits_get_obj emits_py_assert : judge.

(** Syntax-directed proof of a judgement; side conditions are left. *)
Ltac judge :=
  repeat first
    [ solve [eauto with judge]
    | lazymatch goal with
      | |- preserves _ (bind _ _) => apply preserves_bind; [|intros ?]
      | |- raises _ (bind _ _) => apply raises_bind; [|intros ?]
      | |- emits _ (bind _ _) => apply emits_bind; [|intros ?]
      | |- preserves _ (emit _) => apply preserves_emit; intros ? ?
      | |- preserves _ (set_world _) => apply preserves_set_world; intros ? ?
      | |- preserves _ (set_obj _) => apply preserves_set_obj; intros ? ?
      | |- raises _ (raise _) => apply raises_raise; intros ?
      | |- raises _ (client _) => apply raises_client; intros ?
      | |- raises _ (getitem _ _) => apply raises_getitem; intros ?
      | |- raises _ get_obj => apply raises_get_obj; intros ?
      | |- raises _ (py_assert _ _) => apply raises_py_assert; intros ?
      | |- raises _ (lift _) => apply raises_lift; intros ? ? ?
      | |- emits _ (emit _) => apply emits_emit
      | |- preserves _ (match ?x with _ => _ end) => destruct x eqn:?
      | |- raises _ (match ?x with _ => _ end) => destruct x eqn:?
      | |- emits _ (match ?x with _ => _ end) => destruct x eqn:?
      end ].

(** ** The judgements, function by function *)

Lemma to_checksum_address_error v e :
  eth_utils.to_checksum_address v = inl e → e = ValueError.
Proof.
  unfold eth_utils.to_checksum_address, eth_utils.to_normalized_address.
  repeat case_match; intros; by simplify_eq.
Qed.

Lemma validate_address_error v e :
  validate_address v = inl e →
  e = BadParameter "must be a valid ethereum address".
Proof.
  unfold validate_address. destruct (negb (truthy v)); [done|].
  destruct (eth_utils.to_checksum_address _) as [e'|a] eqn:Hc; [|done].
  apply to_checksum_address_error in Hc as ->. by intros [= <-].
Qed.

(** Side conditions of the rules, for the properties of exceptions used
    below. *)
Ltac side :=
  try match goal with
      | |- timeout_is_last _ _ => by intros [=]
      | |- bare_assertion _ _ => by intros ? [=]
      | |- no_assertion _ _ => by intros ? [=]
      | |- is_pipeline _ => exact Logic.I
      | |- is_setup _ => exact Logic.I
      end.

Lemma wait_for_receipt_emits n tx : emits is_pipeline (wait_for_receipt n tx).
Proof.
  intros st st' res H.
  apply wait_for_receipt_spec in H as (_ & k & _ & Htr & _).
  eexists. split; [done|]. by apply Forall_replicate.
Qed.

Lemma wait_for_receipt_obj I n tx :
  (∀ st w t, I st → I {| world := w; trace := t; obj := obj st |}) →
  preserves I (wait_for_receipt n tx).
Proof.
  intros HI st st' res H Hst.
  apply wait_for_receipt_spec in H as (Hobj & _).
  destruct st'. simpl in *. subst. by apply HI.
Qed.

Lemma check_succesful_tx_timeout tx wait :
  raises timeout_is_last (check_succesful_tx tx wait).
Proof.
  intros st st' e H _.
  apply wait_for_receipt_spec in H as (_ & k & _ & Htr & _ & -> & _).
  exists (trace st ++ replicate (Z.to_nat wait) (EvPollReceipt tx)), tx.
  by rewrite Htr, replicate_S_end, app_assoc.
Qed.

Lemma check_succesful_tx_no_assertion tx wait :
  raises no_assertion (check_succesful_tx tx wait).
Proof.
  intros st st' e H msg ->.
  by apply wait_for_receipt_spec in H as (_ & k & _ & _ & ? & _).
Qed.

Hint Resolve wait_for_receipt_emits check_succesful_tx_timeout
  check_succesful_tx_no_assertion : judge.

Lemma deploy_emits self n args : emits is_pipeline (deploy self n args).
Proof. unfold deploy, get_contract, check_succesful_tx. judge; side. Qed.

Lemma deploy_timeout self n args :
  raises timeout_is_last (deploy self n args).
Proof. unfold deploy, get_contract. judge; side. Qed.

Lemma deploy_no_assertion self n args :
  raises no_assertion (deploy self n args).
Proof. unfold deploy, get_contract. judge; side. Qed.

Lemma no_assertion_bare {A} (m : M A) :
  raises no_assertion m → raises bare_assertion m.
Proof. intros Hm st st' e H msg ->. eapply Hm in H. by destruct (H msg). Qed.

Lemma deploy_assertion self n args :
  raises bare_assertion (deploy self n args).
Proof. apply no_assertion_bare, deploy_no_assertion. Qed.

Hint Resolve deploy_emits deploy_timeout deploy_no_assertion
  deploy_assertion : judge.

Lemma deploy_raiden_contracts_emits d :
  emits is_pipeline (deploy_raiden_contracts d).
Proof. unfold deploy_raiden_contracts. judge; side. Qed.

Lemma deploy_raiden_contracts_timeout d :
  raises timeout_is_last (deploy_raiden_contracts d).
Proof. unfold deploy_raiden_contracts. judge; side. Qed.

Lemma deploy_raiden_contracts_no_assertion d :
  raises no_assertion (deploy_raiden_contracts d).
Proof. unfold deploy_raiden_contracts. judge; side. Qed.

Lemma deploy_token_contract_emits d s dec n sym ty :
  emits is_pipeline (deploy_token_contract d s dec n sym ty).
Proof. unfold deploy_token_contract. judge; side. Qed.

Lemma deploy_token_contract_timeout d s dec n sym ty :
  raises timeout_is_last (deploy_token_contract d s dec n sym ty).
Proof.
  unfold deploy_token_contract. judge; side.
  match goal with H : _ = inl _ |- _ =>
    apply to_checksum_address_error in H as -> end.
  side.
Qed.

Lemma deploy_token_contract_assertion d s dec n sym ty :
  raises bare_assertion (deploy_token_contract d s dec n sym ty).
Proof.
  unfold deploy_token_contract. judge; side.
  match goal with H : _ = inl _ |- _ =>
    apply to_checksum_address_error in H as -> end.
  side.
Qed.

Lemma register_token_network_emits pk abi ra ta wait gl :
  emits is_pipeline (register_token_network pk abi ra ta wait gl).
Proof. unfold register_token_network, check_succesful_tx. judge; side. Qed.

Lemma register_token_network_timeout pk abi ra ta wait gl :
  raises timeout_is_last (register_token_network pk abi ra ta wait gl).
Proof. unfold register_token_network. judge; side. Qed.

Lemma register_token_network_no_assertion pk abi ra ta wait gl :
  raises no_assertion (register_token_network pk abi ra ta wait gl).
Proof. unfold register_token_network. judge; side. Qed.

Hint Resolve deploy_raiden_contracts_emits deploy_raiden_contracts_timeout
  deploy_raiden_contracts_no_assertion deploy_token_contract_emits
  deploy_token_contract_timeout deploy_token_contract_assertion
  register_token_network_emits register_token_network_timeout
  register_token_network_no_assertion : judge.

Lemma invoke_emits c : emits is_pipeline (invoke c).
Proof.
  destruct c; simpl; unfold raiden, token, register, modify_deployed,
    get_contract_abi; judge; side.
Qed.

Lemma invoke_timeout c : raises timeout_is_last (invoke c).
Proof.
  destruct c; simpl; unfold raiden, token, register, modify_deployed,
    get_contract_abi; judge; side.
Qed.

Lemma invoke_assertion c : raises bare_assertion (invoke c).
Proof.
  destruct c; simpl; unfold raiden, token, register, modify_deployed,
    get_contract_abi; judge; side;
    apply no_assertion_bare; eauto with judge.
Qed.

Hint Resolve invoke_emits invoke_timeout invoke_assertion : judge.

Lemma invoke_chain_emits cs : emits is_pipeline (invoke_chain cs).
Proof. induction cs; simpl; judge. Qed.

Lemma invoke_chain_timeout cs : raises timeout_is_last (invoke_chain cs).
Proof. induction cs; simpl; judge. Qed.

Lemma invoke_chain_assertion cs : raises bare_assertion (invoke_chain cs).
Proof. induction cs; simpl; judge. Qed.

(** ** The set-up phase *)

(** [main], computed. *)
Lemma main_eq rpc_provider private_key wait gas_price gas_limit st :
  main rpc_provider private_key wait gas_price gas_limit st =
  let st0 := logged st [EvPrint (OutProvider rpc_provider)] in
  match get_private_key C (world st) private_key with
  | None => (st0, inl ClientError)
  | Some None => (st0, inl (AssertionError ""))
  | Some (Some key) =>
      let owner := private_key_to_address C key in
      let st1 := logged st [EvPrint (OutProvider rpc_provider);
                            EvGetBalance owner] in
      match eth_getBalance C (world st) owner with
      | None => (st1, inl ClientError)
      | Some balance =>
          if (0 <? balance)%N then
            match __init__ key gas_limit gas_price wait st1 with
            | (st2, inl e) => (st2, inl e)
            | (st2, inr deployer) =>
                ({| world := world st2; trace := trace st2;
                    obj := Some {| obj_deployer := deployer;
                                   obj_deployed_contracts := ∅;
                                   obj_token_type := "CustomToken";
                                   obj_wait := wait |} |},
                 inr tt)
            end
          else (st1, inl (AssertionError "Account with insuficient funds."))
      end
  end.
Proof.
  unfold main, logged, bind. prim.
  destruct (get_private_key C (world st) private_key) as [[key|]|];
    simpl; try done.
  rewrite <- app_assoc. simpl.
  destruct (eth_getBalance C (world st) _) as [balance|]; simpl; [|done].
  destruct (0 <? balance)%N; simpl; [|done].
  by destruct (__init__ _ _ _ _ _) as [st2 [e|d]].
Qed.

Lemma __init___emits private_key gas_limit gas_price wait :
  emits is_setup (__init__ private_key gas_limit gas_price wait).
Proof.
  intros st st' res. rewrite __init___eq. cbv zeta. unfold logged.
  repeat case_match; intros; simplify_eq; simpl;
    eexists; (split; [done|]); repeat constructor.
Qed.

Lemma main_emits rpc_provider private_key wait gas_price gas_limit :
  emits is_setup (main rpc_provider private_key wait gas_price gas_limit).
Proof.
  intros st st' res. rewrite main_eq. cbv zeta. unfold logged.
  destruct (get_private_key C (world st) private_key) as [[key|]|].
  2,3: intros; simplify_eq; simpl; eexists; (split; [done|]);
       repeat constructor.
  destruct (eth_getBalance C (world st) _) as [balance|].
  2: intros; simplify_eq; simpl; eexists; (split; [done|]);
     repeat constructor.
  destruct (0 <? balance)%N.
  2: intros; simplify_eq; simpl; eexists; (split; [done|]);
     repeat constructor.
  destruct (__init__ _ _ _ _ _) as [st2 r] eqn:Hinit.
  apply __init___emits in Hinit as (evs & Htr & HK). simpl in Htr.
  intros H. exists ([EvPrint (OutProvider rpc_provider);
                     EvGetBalance (private_key_to_address C key)] ++ evs).
  split.
  - destruct r; simplify_eq; simpl; by rewrite Htr, <- app_assoc.
  - apply Forall_app. split; [repeat constructor | done].
Qed.

Lemma setup_no_deployments evs : Forall is_setup evs → deployments evs = [].
Proof.
  induction 1 as [|e evs He _ IH]; [done|].
  destruct e as [[]| | | | | | | |]; simpl in *; done.
Qed.

Lemma pipeline_no_verifications evs :
  Forall is_pipeline evs → verifications evs = [].
Proof.
  induction 1 as [|e evs He _ IH]; [done|].
  destruct e as [[]| | | | | | | |]; simpl in *; done.
Qed.

Lemma pipeline_no_balance_checks evs :
  Forall is_pipeline evs → balance_checks evs = [].
Proof.
  induction 1 as [|e evs He _ IH]; [done|].
  destruct e as [[]| | | | | | | |]; simpl in *; done.
Qed.

(** ** The whole command line *)

(** A run is the set-up phase, then the option callbacks of all the
    subcommands, then the subcommands in order; the first failure ends
    it. *)
Lemma cli_spec rpc_provider private_key wait gas_price gas_limit c cs st :
  cli rpc_provider private_key wait gas_price gas_limit (c :: cs) st =
  match main rpc_provider private_key wait gas_price gas_limit st with
  | (st1, inl e) => (st1, inl e)
  | (st1, inr _) =>
      match make_contexts (c :: cs) with
      | inl e => (st1, inl e)
      | inr contexts => invoke_chain contexts st1
      end
  end.
Proof.
  unfold cli, bind.
  destruct (main _ _ _ _ _ _) as [st1 [e|[]]]; [done|].
  by destruct (make_contexts (c :: cs)).
Qed.

Lemma make_contexts_error cs e :
  make_contexts cs = inl e →
  e = BadParameter "must be a valid ethereum address".
Proof.
  induction cs as [|c cs IH]; simpl; [done|].
  destruct (make_context c) as [e'|c'] eqn:Hc.
  - intros [= <-]. destruct c; simpl in Hc; try done.
    destruct (validate_address token_address) eqn:Ht.
    + simplify_eq. by eapply validate_address_error.
    + destruct (validate_address registry_address) eqn:Hr; simplify_eq.
      by eapply validate_address_error.
  - destruct (make_contexts cs); [|done]. intros [= <-]. by apply IH.
Qed.

(** C6. With the key read and the balance known, every run starts with
    the balance check: nothing but the print of the provider precedes it,
    so no deployment does.  The run fails with the assertion "Account with
    insuficient funds." exactly when the balance is zero, and then nothing
    follows the check; with a positive balance the check passes. *)
Theorem balance_check rpc_provider private_key wait gas_price gas_limit
    commands w key balance :
  commands ≠ [] →
  get_private_key C w private_key = Some (Some key) →
  eth_getBalance C w (private_key_to_address C key) = Some balance →
  let run := cli rpc_provider private_key wait gas_price gas_limit commands
                 (initial w) in
  (balance = 0%N ↔
   run.2 = inl (AssertionError "Account with insuficient funds.")) ∧
  ∃ evs,
    trace run.1 = EvPrint (OutProvider rpc_provider)
                  :: EvGetBalance (private_key_to_address C key) :: evs ∧
    (balance = 0%N → evs = []).
Proof.
  intros Hcmds Hkey Hbal. destruct commands as [|c cs]; [done|].
  cbv zeta. rewrite cli_spec, main_eq. cbv zeta.
  pose proof (make_contexts_error (c :: cs)) as Hmc.
  set (mc := make_contexts (c :: cs)) in *. clearbody mc.
  simpl. rewrite Hkey, Hbal.
  destruct (0 <? balance)%N eqn:Hpos.
  2:{ apply N.ltb_ge in Hpos. simpl. split; [split; [done|lia]|].
      exists []. done. }
  apply N.ltb_lt in Hpos.
  destruct (__init__ _ _ _ _ _) as [st2 r] eqn:Hinit.
  pose proof Hinit as Hev.
  apply __init___emits in Hev as (evs & Htr & _). simpl in Htr.
  rewrite __init___eq in Hinit. cbv zeta in Hinit.
  destruct r as [e|d].
  { simpl. split.
    - split; [lia|]. intros [= ->]. repeat case_match; simplify_eq.
    - exists evs. split; [done|lia]. }
  destruct mc as [e|contexts].
  { rewrite (Hmc e eq_refl). simpl. split.
    - split; [lia|]. intros ?. simplify_eq.
    - exists evs. split; [done|lia]. }
  destruct (invoke_chain contexts _) as [st3 r3] eqn:Hrun. simpl.
  split.
  - split; [lia|]. intros ->.
    apply invoke_chain_assertion in Hrun.
    by specialize (Hrun _ eq_refl).
  - apply invoke_chain_emits in Hrun as (evs' & Htr' & _). simpl in Htr'.
    exists (evs ++ evs'). split; [|lia].
    rewrite Htr', Htr. simpl. by rewrite <- ?app_assoc.
Qed.

(** ** Timeouts and checksum failures *)

Lemma is_request_unique self n args r r' :
  is_request self n args r → is_request self n args r' → r = r'.
Proof.
  intros (? & ? & ? & ? & ?) (? & ? & ? & ? & ?).
  destruct r, r'. simpl in *. by simplify_eq.
Qed.

(** Once the transaction is submitted, the outcome of [deploy] is the
    outcome of the wait. *)
Lemma deploy_submitted self n args st r w' tx :
  is_request self n args r →
  send_constructor C (world st) r = (w', Some tx) →
  deploy self n args st =
  match check_succesful_tx tx (d_wait self)
          {| world := w'; trace := trace st ++ [EvDeploy r];
             obj := obj st |} with
  | (st', inl e) => (st', inl e)
  | (st', inr receipt) => (st', inr (contractAddress receipt))
  end.
Proof.
  intros (Hn & Hci & Hargs & Htx & Hkey) Hsend.
  unfold deploy, get_contract, getitem. rewrite <- Hn in *. rewrite Hci.
  unfold bind. prim.
  assert (Hr : {| dr_contract_name := dr_contract_name r;
                  dr_interface := dr_interface r;
                  dr_args := default [] args;
                  dr_transaction := d_transaction self;
                  dr_private_key := d_private_key self |} = r)
    by (destruct r; simpl in *; by subst).
  rewrite Hr, Hsend. simpl.
  by destruct (check_succesful_tx _ _ _) as [st' [e|rc]].
Qed.

Lemma never_mined_unmined tx n w :
  (∀ w tx, (eth_getTransactionReceipt C w tx).2 = None) → unmined tx n w.
Proof.
  intros Hnever. revert w. induction n as [|n IH]; intros w.
  - constructor.
  - destruct (eth_getTransactionReceipt C w tx) as [w' r] eqn:Hpoll.
    pose proof (Hnever w tx) as Hr. rewrite Hpoll in Hr. simpl in Hr. subst.
    econstructor; eauto.
Qed.

(** C7. With a wait of 0 and a client that never returns a receipt, a
    call of [deploy] returns with an error after at most one poll, and
    once the transaction is submitted the error is [TransactionTimeout],
    raised after the submission and exactly one poll. *)
Theorem deploy_times_out self n args st :
  d_wait self = 0 →
  (∀ w tx, (eth_getTransactionReceipt C w tx).2 = None) →
  ∃ st' e,
    deploy self n args st = (st', inl e) ∧
    (length (polls (trace st')) ≤ length (polls (trace st)) + 1)%nat ∧
    ∀ r w' tx,
      is_request self n args r →
      send_constructor C (world st) r = (w', Some tx) →
      e = TransactionTimeout ∧
      trace st' = trace st ++ [EvDeploy r; EvPollReceipt tx].
Proof.
  intros Hwait Hnever.
  destruct (deploy self n args st) as [st' res] eqn:H.
  apply deploy_spec in H as [_ H].
  destruct H as [(Hnone & -> & ->) | (r & w' & sent & Hreq & Hsend & H)].
  { exists st, (KeyError n). split; [done|]. split; [lia|].
    intros r w' tx (_ & Hci & _) _. congruence. }
  destruct sent as [tx|].
  2:{ destruct H as (-> & _ & Htr). exists st', ClientError.
      split; [done|]. split.
      - rewrite Htr, polls_app. simpl. rewrite app_nil_r. lia.
      - intros r' w'' tx Hreq' Hsend'.
        rewrite (is_request_unique _ _ _ _ _ Hreq' Hreq) in Hsend'.
        congruence. }
  destruct H as (k & Hk & Htr & Hres). rewrite Hwait in *. simpl in Hk.
  assert (k = 1%nat) as -> by lia.
  destruct res as [e|a].
  2:{ destruct Hres as (w & receipt & Hpoll & _).
      pose proof (Hnever w tx) as Hn. rewrite Hpoll in Hn. done. }
  destruct Hres as (-> & _ & _). exists st', TransactionTimeout.
  split; [done|]. split.
  - rewrite Htr, polls_app. simpl. rewrite length_app. simpl. lia.
  - intros r' w'' tx' Hreq' Hsend'.
    rewrite (is_request_unique _ _ _ _ _ Hreq' Hreq) in *.
    assert (tx' = tx) as -> by congruence.
    split; [done|]. by rewrite Htr.
Qed.

(** The checksum verifications of a construction: at most one, and exactly
    one when the construction succeeds or fails on the comparison. *)
Lemma __init___verifications private_key gas_limit gas_price wait st st' res :
  __init__ private_key gas_limit gas_price wait st = (st', res) →
  ∃ vs, verifications (trace st') = verifications (trace st) ++ vs ∧
        (vs = [] ∨ vs = [CONTRACTS_PRECOMPILED_PATH]) ∧
        ((∃ d, res = inr d) ∨ res = inl ChecksumMismatch →
         vs = [CONTRACTS_PRECOMPILED_PATH]) ∧
        (res = inl ClientError ∨ res = inl ChecksumMismatch ∨ ∃ d, res = inr d).
Proof.
  rewrite __init___eq. cbv zeta. unfold logged. intros H.
  repeat case_match; simplify_eq; simpl; rewrite verifications_app; simpl;
    eexists; (split; [done|]); (split; [auto|]);
    (split; [|eauto]); intros [[d Hd]|Hd]; simplify_eq; done.
Qed.

Lemma main_not_timeout rpc_provider private_key wait gas_price gas_limit :
  raises timeout_is_last
         (main rpc_provider private_key wait gas_price gas_limit).
Proof.
  intros st st' e. rewrite main_eq. cbv zeta. intros Hrun.
  repeat case_match; simplify_eq; side.
  match goal with
  | H : __init__ _ _ _ _ _ = _ |- _ =>
      apply __init___verifications in H
        as (_ & _ & _ & _ & [?|[?|[? ?]]]); by simplify_eq
  end.
Qed.

Lemma main_verifications rpc_provider private_key wait gas_price gas_limit
    st st' res :
  main rpc_provider private_key wait gas_price gas_limit st = (st', res) →
  ∃ vs, verifications (trace st') = verifications (trace st) ++ vs ∧
        (vs = [] ∨ vs = [CONTRACTS_PRECOMPILED_PATH]) ∧
        (res = inr tt → vs = [CONTRACTS_PRECOMPILED_PATH]).
Proof.
  rewrite main_eq. cbv zeta. unfold logged. intros Hrun.
  repeat case_match; simplify_eq; simpl;
    try (exists []; rewrite verifications_app; simpl; rewrite ?app_nil_r;
         (split; [done|]); (split; [by left|]); intros ?; by simplify_eq).
  - match goal with
    | H : __init__ _ _ _ _ _ = _ |- _ =>
        apply __init___verifications in H as (vs & Hvs & Hcases & _)
    end.
    exists vs. simpl in Hvs. rewrite Hvs, verifications_app. simpl.
    rewrite app_nil_r. split; [done|]. split; [done|]. intros [=].
  - match goal with
    | H : __init__ _ _ _ _ _ = _ |- _ =>
        apply __init___verifications in H as (vs & Hvs & Hcases & Hok & _)
    end.
    exists vs. simpl in *. rewrite Hvs, verifications_app. simpl.
    rewrite app_nil_r. split; [done|]. split; [done|]. eauto.
Qed.

Lemma __init___mismatch private_key gas_limit gas_price wait st sums pc :
  source_checksums C (world st) = Some sums →
  precompiled_checksums C (world st) CONTRACTS_PRECOMPILED_PATH = Some pc →
  sums ≠ pc →
  (∃ e, (__init__ private_key gas_limit gas_price wait st).2 = inl e) ∧
  (is_Some (load_contracts C (world st) CONTRACTS_PRECOMPILED_PATH) →
   is_Some (load_contracts C (world st) CONTRACTS_SOURCE_DIRS) →
   (__init__ private_key gas_limit gas_price wait st).2
     = inl ChecksumMismatch).
Proof.
  intros Hs Hp Hne. rewrite __init___eq. cbv zeta. rewrite Hs, Hp.
  destruct (load_contracts C (world st) CONTRACTS_PRECOMPILED_PATH);
    [|split; [by eexists | by intros []]].
  destruct (load_contracts C (world st) CONTRACTS_SOURCE_DIRS);
    [|split; [by eexists | by intros _ []]].
  destruct (decide (sums = pc)); [done|].
  split; [by eexists | done].
Qed.

(** With a readable artifact store the construction verifies the
    checksums, once, and the verdict is its outcome. *)
Lemma __init___readable private_key gas_limit gas_price wait st :
  readable_artifacts (world st) →
  let run := __init__ private_key gas_limit gas_price wait st in
  verifications (trace run.1)
    = verifications (trace st) ++ [CONTRACTS_PRECOMPILED_PATH] ∧
  ((∃ d, run.2 = inr d) ∨ run.2 = inl ChecksumMismatch).
Proof.
  intros ([pre Hpre] & [cs Hcs] & [sums Hs] & [pc Hp]). cbv zeta.
  rewrite __init___eq. cbv zeta. rewrite Hpre, Hcs, Hs, Hp.
  unfold logged.
  destruct (decide (sums = pc)); simpl; rewrite verifications_app; simpl;
    (split; [done|]); eauto.
Qed.

Lemma __init___match private_key gas_limit gas_price wait st sums :
  source_checksums C (world st) = Some sums →
  precompiled_checksums C (world st) CONTRACTS_PRECOMPILED_PATH = Some sums →
  is_Some (load_contracts C (world st) CONTRACTS_PRECOMPILED_PATH) →
  is_Some (load_contracts C (world st) CONTRACTS_SOURCE_DIRS) →
  ∃ d, (__init__ private_key gas_limit gas_price wait st).2 = inr d.
Proof.
  intros Hs Hp [pre Hpre] [cs Hcs].
  rewrite __init___eq. cbv zeta. rewrite Hpre, Hcs, Hs, Hp.
  rewrite decide_True by done. by eexists.
Qed.

(** C3. (a) A call of [deploy] performs no checksum verification; when
    its transaction was submitted, it fails with [TransactionTimeout]
    exactly when the transaction stays unmined during the polls of the
    wait window; a timed-out call has submitted its transaction once and
    ends with the last poll, without another attempt.  (b) Construction
    verifies the checksums at most once, and exactly once when it
    succeeds, when it fails on the comparison, and whenever the artifact
    store is readable, in which case the verdict is the outcome: with
    equal checksums the construction succeeds, with differing ones it
    fails, with [ChecksumMismatch] when the artifacts could be loaded.
    (c) A whole run verifies at most once, and exactly once when it
    deploys anything; with differing checksums it fails before any
    deployment; when it fails with [TransactionTimeout], the trace ends
    with the last poll of the timed-out wait: nothing is retried and
    nothing else runs. *)
Theorem timeout_and_checksum_are_fatal
    self n args st private_key gas_limit gas_price wait rpc_provider
    commands w :
  (let run := deploy self n args st in
   verifications (trace run.1) = verifications (trace st) ∧
   (∀ r w' tx,
      is_request self n args r →
      send_constructor C (world st) r = (w', Some tx) →
      (unmined tx (S (Z.to_nat (d_wait self))) w' ↔
       run.2 = inl TransactionTimeout)) ∧
   (run.2 = inl TransactionTimeout →
    deployments (trace run.1)
      = deployments (trace st) ++ [(n, default [] args)] ∧
    ∃ pre tx, trace run.1 = pre ++ [EvPollReceipt tx])) ∧
  (let run := __init__ private_key gas_limit gas_price wait st in
   (∃ vs, verifications (trace run.1) = verifications (trace st) ++ vs ∧
          (vs = [] ∨ vs = [CONTRACTS_PRECOMPILED_PATH]) ∧
          ((∃ d, run.2 = inr d) ∨ run.2 = inl ChecksumMismatch →
           vs = [CONTRACTS_PRECOMPILED_PATH]) ∧
          (readable_artifacts (world st) →
           vs = [CONTRACTS_PRECOMPILED_PATH] ∧
           ((∃ d, run.2 = inr d) ∨ run.2 = inl ChecksumMismatch))) ∧
   (∀ sums pc,
      source_checksums C (world st) = Some sums →
      precompiled_checksums C (world st) CONTRACTS_PRECOMPILED_PATH
        = Some pc →
      (sums ≠ pc →
       (∃ e, run.2 = inl e) ∧
       (is_Some (load_contracts C (world st) CONTRACTS_PRECOMPILED_PATH) →
        is_Some (load_contracts C (world st) CONTRACTS_SOURCE_DIRS) →
        run.2 = inl ChecksumMismatch)) ∧
      (sums = pc →
       is_Some (load_contracts C (world st) CONTRACTS_PRECOMPILED_PATH) →
       is_Some (load_contracts C (world st) CONTRACTS_SOURCE_DIRS) →
       ∃ d, run.2 = inr d))) ∧
  (let run := cli rpc_provider private_key wait gas_price gas_limit commands
                  (initial w) in
   (length (verifications (trace run.1)) ≤ 1)%nat ∧
   (deployments (trace run.1) ≠ [] →
    verifications (trace run.1) = [CONTRACTS_PRECOMPILED_PATH]) ∧
   (∀ sums pc,
      source_checksums C w = Some sums →
      precompiled_checksums C w CONTRACTS_PRECOMPILED_PATH = Some pc →
      sums ≠ pc →
      (∃ e, run.2 = inl e) ∧ deployments (trace run.1) = []) ∧
   (run.2 = inl TransactionTimeout →
    ∃ pre tx, trace run.1 = pre ++ [EvPollReceipt tx])).
Proof.
  split; [|split].
  - cbv zeta. destruct (deploy self n args st) as [st' res] eqn:H. simpl.
    pose proof H as Htrace.
    apply deploy_trace in Htrace
      as (_ & evs & Htr & Hver & _ & _ & _ & Htimeout & _).
    split; [by rewrite Htr, verifications_app, Hver, app_nil_r|]. split.
    + intros r w' tx Hreq Hsend.
      rewrite (deploy_submitted _ _ _ _ _ _ _ Hreq Hsend) in H.
      unfold check_succesful_tx in H. split.
      * intros Hun.
        eapply (wait_for_receipt_unmined _ _
                  {| world := w'; trace := trace st ++ [EvDeploy r];
                     obj := obj st |}) in Hun as [st1 Hwait].
        rewrite Hwait in H. by simplify_eq.
      * intros ->.
        destruct (wait_for_receipt _ _ _) as [st1 [e|rc]] eqn:Hwait;
          simplify_eq.
        by apply wait_for_receipt_spec in Hwait as (_ & k & _ & _ & _ & _ & ?).
    + intros ->. destruct (Htimeout eq_refl) as (Hd & pre & tx & ->).
      split; [by rewrite Htr, deployments_app, Hd|].
      exists (trace st ++ pre), tx. by rewrite Htr, app_assoc.
  - cbv zeta. split.
    + pose proof (__init___readable private_key gas_limit gas_price wait st)
        as Hread. cbv zeta in Hread.
      destruct (__init__ _ _ _ _ _) as [st' res] eqn:H. simpl in *.
      apply __init___verifications in H as (vs & Hvs & Hcases & Hok & _).
      exists vs. split; [done|]. split; [done|]. split; [done|].
      intros Hr. destruct (Hread Hr) as [Hv Hres]. split; [|done].
      rewrite Hvs in Hv. by apply app_inv_head in Hv.
    + intros sums pc Hs Hp. split.
      * intros Hne. by eapply __init___mismatch.
      * intros -> Hpre Hcs. by eapply __init___match.
  - cbv zeta. destruct commands as [|c cs].
    { simpl. split; [lia|]. split; [done|]. split; [|done].
      intros. split; [by eexists|done]. }
    rewrite cli_spec.
    destruct (main _ _ _ _ _ _) as [st1 r1] eqn:Hmain.
    pose proof Hmain as Hv. apply main_verifications in Hv
      as (vs & Hvs & Hcases & Honce).
    pose proof Hmain as Hem. apply main_emits in Hem as (evs & Htr & Hsetup).
    simpl in Hvs, Htr.
    assert (Hlen : (length vs ≤ 1)%nat) by (destruct Hcases as [-> | ->]; simpl; lia).
    destruct r1 as [e|[]].
    { simpl. split; [by rewrite Hvs|]. split.
      { rewrite Htr. by rewrite (setup_no_deployments _ Hsetup). }
      split.
      - intros. split; [by eexists|].
        rewrite Htr. by apply setup_no_deployments.
      - intros [= ->]. apply main_not_timeout in Hmain. by apply Hmain. }
    rewrite (Honce eq_refl) in Hvs.
    assert (Hfail : ∀ sums pc,
               source_checksums C w = Some sums →
               precompiled_checksums C w CONTRACTS_PRECOMPILED_PATH = Some pc →
               sums ≠ pc → False).
    { intros sums pc Hs Hp Hne. rewrite main_eq in Hmain. cbv zeta in Hmain.
      repeat case_match; simplify_eq.
      match goal with
      | H : __init__ ?k ?gl ?gp ?wt ?s = _ |- _ =>
          destruct (__init___mismatch k gl gp wt s sums pc Hs Hp Hne)
            as [[e He] _]; rewrite H in He; done
      end. }
    destruct (make_contexts (c :: cs)) as [e|contexts] eqn:Hctx.
    { apply make_contexts_error in Hctx as ->. simpl.
      split; [by rewrite Hvs|]. split; [by rewrite Hvs|]. split; [|done].
      intros sums pc Hs Hp Hne. destruct (Hfail sums pc Hs Hp Hne). }
    destruct (invoke_chain contexts st1) as [st2 r2] eqn:Hrun. simpl.
    pose proof Hrun as Hem. apply invoke_chain_emits in Hem
      as (evs' & Htr' & Hpipe).
    assert (Hvsrun : verifications (trace st2)
                     = [CONTRACTS_PRECOMPILED_PATH]).
    { rewrite Htr', verifications_app, Hvs,
        (pipeline_no_verifications _ Hpipe), app_nil_r. done. }
    split; [by rewrite Hvsrun|]. split; [done|].
    split.
    { intros sums pc Hs Hp Hne. destruct (Hfail sums pc Hs Hp Hne). }
    intros ->. apply invoke_chain_timeout in Hrun. by apply Hrun.
Qed.

(** ** The register subcommand *)

(** [register], computed: the flags are applied to the context, then the
    two assertions are made, then the registration is run. *)
Lemma register_eq token_address registry_address st o :
  obj st = Some o →
  register token_address registry_address st =
  let d := apply_flags (obj_token_type o) token_address registry_address
                       (obj_deployed_contracts o) in
  let st1 := {| world := world st; trace := trace st;
                obj := Some (with_deployed o d) |} in
  match d !! CONTRACT_TOKEN_NETWORK_REGISTRY, d !! obj_token_type o with
  | None, _ | _, None => (st1, inl (AssertionError ""))
  | Some registry, Some token =>
      match contracts (d_contract_manager (obj_deployer o))
            !! CONTRACT_TOKEN_NETWORK_REGISTRY with
      | None => (st1, inl (KeyError CONTRACT_TOKEN_NETWORK_REGISTRY))
      | Some i =>
          register_token_network (d_private_key (obj_deployer o)) (abi i)
                                 registry token (obj_wait o) 4000000 st1
      end
  end.
Proof.
  intros Hobj. destruct st as [w t ob]. simpl in Hobj. subst ob.
  destruct o as [dep d0 ty wt].
  unfold register, apply_flags, with_deployed, modify_deployed,
    get_contract_abi. simpl.
  unfold bind at 1. simpl.
  destruct (truthy token_address), (truthy registry_address);
    unfold bind; prim;
    repeat match goal with
           | |- context [bool_decide (is_Some ?x)] =>
               destruct x eqn:?; simpl
           end;
    try done;
    destruct (contracts (d_contract_manager dep)
              !! CONTRACT_TOKEN_NETWORK_REGISTRY); simpl; done.
Qed.

(** The registration starts with the transaction that calls
    [createERC20TokenNetwork]; it leaves [ctx.obj] alone and raises no
    assertion error. *)
Lemma register_token_network_spec pk abi registry token wait gas_limit
    st st' res :
  register_token_network pk abi registry token wait gas_limit st
    = (st', res) →
  obj st' = obj st ∧
  (∀ msg, res ≠ inl (AssertionError msg)) ∧
  ∃ evs,
    trace st' =
      trace st
      ++ EvTransact {| fr_abi := abi;
                       fr_address := registry;
                       fr_function := "createERC20TokenNetwork";
                       fr_args := [of_address token];
                       fr_transaction := {["gas_limit" := PyInt gas_limit]};
                       fr_private_key := pk |} :: evs.
Proof.
  intros H. split; [|split].
  - assert (Hp : preserves (λ s, obj s = obj st)
                   (register_token_network pk abi registry token wait
                                           gas_limit)).
    { unfold register_token_network, check_succesful_tx. judge; try done.
      apply wait_for_receipt_obj. done. }
    by eapply Hp.
  - intros msg ->.
    eapply register_token_network_no_assertion in H. by destruct (H msg).
  - unfold register_token_network in H.
    apply bind_inv in H as [(e & Hm & _) | (s1 & [] & Hm & H)];
      [unfold emit in Hm; simplify_eq|].
    unfold emit in Hm. simplify_eq. cbv beta in H.
    match type of H with
    | ?m _ = _ =>
        assert (Hem : emits is_pipeline m)
          by (unfold check_succesful_tx; judge; side)
    end.
    apply Hem in H as (evs & Htr & _). simpl in Htr.
    exists evs. by rewrite Htr, <- app_assoc.
Qed.

(** C5. With the flags applied to the context, [register] fails with an
    assertion error exactly when the context lacks the token address
    (under the token type name) or the address of the token network
    registry; with both present and the ABI of the registry at hand, the
    next effect is the registration transaction, sent to the registry of
    the context with the token of the context as argument. *)
Theorem register_assertion token_address registry_address st o :
  obj st = Some o →
  let d := apply_flags (obj_token_type o) token_address registry_address
                       (obj_deployed_contracts o) in
  let run := register token_address registry_address st in
  ((∃ msg, run.2 = inl (AssertionError msg)) ↔
   ¬ (is_Some (d !! obj_token_type o) ∧
      is_Some (d !! CONTRACT_TOKEN_NETWORK_REGISTRY))) ∧
  (∀ token registry i,
     d !! obj_token_type o = Some token →
     d !! CONTRACT_TOKEN_NETWORK_REGISTRY = Some registry →
     contracts (d_contract_manager (obj_deployer o))
       !! CONTRACT_TOKEN_NETWORK_REGISTRY = Some i →
     ∃ evs,
       trace run.1 =
         trace st
         ++ EvTransact
              {| fr_abi := abi i;
                 fr_address := registry;
                 fr_function := "createERC20TokenNetwork";
                 fr_args := [of_address token];
                 fr_transaction := {["gas_limit" := PyInt 4000000]};
                 fr_private_key := d_private_key (obj_deployer o) |}
            :: evs).
Proof.
  intros Hobj. cbv zeta. rewrite (register_eq _ _ _ _ Hobj). cbv zeta.
  set (d := apply_flags _ _ _ _).
  destruct (d !! CONTRACT_TOKEN_NETWORK_REGISTRY) as [registry|] eqn:Hr.
  2:{ simpl. split.
      - split; [|by eexists]. intros _ [_ [? ?]]. done.
      - intros. done. }
  destruct (d !! obj_token_type o) as [token|] eqn:Ht.
  2:{ simpl. split.
      - split; [|by eexists]. intros _ [[? ?] _]. done.
      - intros. done. }
  destruct (contracts _ !! CONTRACT_TOKEN_NETWORK_REGISTRY) as [i|] eqn:Hi.
  2:{ simpl. split.
      - split; [by intros [? ?]|]. intros []. split; by eexists.
      - intros. done. }
  destruct (register_token_network _ _ _ _ _ _ _) as [st' res] eqn:Hrun.
  apply register_token_network_spec in Hrun as (_ & Hna & evs & Htr).
  simpl in *. split.
  - split.
    + intros [msg ->]. by destruct (Hna msg).
    + intros []. split; by eexists.
  - intros ? ? ? [= <-] [= <-] [= <-]. by exists evs.
Qed.

(** C10. Whatever its outcome, [register] leaves a context in which a
    supplied (non-empty) token address has replaced the entry under the
    token type name and a supplied registry address the entry of the
    token network registry; the entry of an omitted flag and all other
    entries are unchanged, as are the other fields of [ctx.obj]. *)
Theorem register_flags token_address registry_address st o :
  obj st = Some o →
  obj_token_type o ≠ CONTRACT_TOKEN_NETWORK_REGISTRY →
  let run := register token_address registry_address st in
  ∃ o',
    obj run.1 = Some o' ∧
    obj_deployer o' = obj_deployer o ∧
    obj_token_type o' = obj_token_type o ∧
    obj_wait o' = obj_wait o ∧
    let d := obj_deployed_contracts o in
    let d' := obj_deployed_contracts o' in
    d' = apply_flags (obj_token_type o) token_address registry_address d ∧
    (∀ a, token_address = Some a → a ≠ "" →
          d' !! obj_token_type o = Some (Some a)) ∧
    (∀ a, registry_address = Some a → a ≠ "" →
          d' !! CONTRACT_TOKEN_NETWORK_REGISTRY = Some (Some a)) ∧
    (token_address = None → d' !! obj_token_type o = d !! obj_token_type o) ∧
    (registry_address = None →
     d' !! CONTRACT_TOKEN_NETWORK_REGISTRY
       = d !! CONTRACT_TOKEN_NETWORK_REGISTRY) ∧
    (∀ k, k ≠ obj_token_type o → k ≠ CONTRACT_TOKEN_NETWORK_REGISTRY →
          d' !! k = d !! k).
Proof.
  intros Hobj Hne. cbv zeta.
  exists (with_deployed o
            (apply_flags (obj_token_type o) token_address registry_address
                         (obj_deployed_contracts o))).
  split.
  { rewrite (register_eq _ _ _ _ Hobj). cbv zeta.
    repeat case_match; try done.
    match goal with
    | |- context [register_token_network ?a ?b ?c ?d ?e ?f ?s] =>
        destruct (register_token_network a b c d e f s) as [st' res] eqn:Hrun
    end.
    apply register_token_network_spec in Hrun as (Ho & _).
    simpl. by rewrite Ho. }
  simpl. repeat split; unfold apply_flags.
  - intros a -> Ha. apply String.eqb_neq in Ha. simpl. rewrite Ha. simpl.
    destruct (truthy registry_address); by simplify_map_eq.
  - intros a -> Ha. apply String.eqb_neq in Ha. simpl. rewrite Ha. simpl.
    by simplify_map_eq.
  - intros ->. simpl. destruct (truthy registry_address); by simplify_map_eq.
  - intros ->. simpl. destruct (truthy token_address); by simplify_map_eq.
  - intros k Hk1 Hk2.
    destruct (truthy token_address), (truthy registry_address);
      by simplify_map_eq.
Qed.

(** ** The token subcommand *)

(** [deploy_token_contract], computed from its one deployment. *)
Lemma deploy_token_contract_eq d supply decimals name symbol ty st :
  deploy_token_contract d supply decimals name symbol ty st =
  match deploy d ty (Some [supply; PyInt decimals; PyStr name; PyStr symbol])
               st with
  | (st1, inl e) => (st1, inl e)
  | (st1, inr a) =>
      if truthy a && eth_utils.is_address (default "" a) then
        match eth_utils.to_checksum_address (default "" a) with
        | inl e => (st1, inl e)
        | inr c => (st1, inr {[ty := Some c]})
        end
      else (st1, inl (AssertionError ""))
  end.
Proof.
  unfold deploy_token_contract, bind.
  destruct (deploy d ty _ st) as [st1 [e|a]]; [done|].
  unfold getitem. rewrite lookup_insert_eq. prim.
  destruct (truthy a && eth_utils.is_address (default "" a)); simpl; [|done].
  by destruct (eth_utils.to_checksum_address (default "" a)).
Qed.

(** [token], computed from [deploy_token_contract]. *)
Lemma token_eq supply name decimals symbol st :
  token supply name decimals symbol st =
  match obj st with
  | None => (st, inl TypeError)
  | Some o =>
      match deploy_token_contract (obj_deployer o)
              (scale_supply supply decimals) decimals name symbol
              (obj_token_type o) st with
      | (st1, inl e) => (st1, inl e)
      | (st1, inr deployed) =>
          match obj st1 with
          | None =>
              ({| world := world st1;
                  trace := trace st1 ++ [EvPrint (OutDeployed deployed)];
                  obj := None |}, inl TypeError)
          | Some o1 =>
              ({| world := world st1;
                  trace := trace st1 ++ [EvPrint (OutDeployed deployed)];
                  obj := Some (with_deployed o1
                                 (deployed ∪ obj_deployed_contracts o1)) |},
               inr tt)
          end
      end
  end.
Proof.
  unfold token, modify_deployed, bind, get_obj at 1.
  destruct (obj st) as [o|]; [|done].
  destruct (deploy_token_contract _ _ _ _ _ _ st) as [st1 [e|m]]; [done|].
  prim. by destruct (obj st1).
Qed.

(** C4. For non-negative decimals, every deployment that the token
    subcommand submits has the constructor arguments (supply times ten to
    the decimals, decimals, name, symbol); with a context installed and
    the token contract in the artifact store, it submits exactly that one
    deployment, for the token type of the context. *)
Theorem token_supply_argument token_supply token_name token_decimals
    token_symbol st :
  0 ≤ token_decimals →
  let run := token token_supply token_name token_decimals token_symbol st in
  let arguments := [PyInt (token_supply * 10 ^ token_decimals);
                    PyInt token_decimals; PyStr token_name;
                    PyStr token_symbol] in
  ∃ evs,
    trace run.1 = trace st ++ evs ∧
    (∀ name args, (name, args) ∈ deployments evs → args = arguments) ∧
    (∀ o i,
       obj st = Some o →
       contracts (d_contract_manager (obj_deployer o)) !! obj_token_type o
         = Some i →
       deployments evs = [(obj_token_type o, arguments)]).
Proof.
  intros Hdec. cbv zeta. rewrite token_eq.
  destruct (obj st) as [o|] eqn:Hobj.
  2:{ exists []. simpl. rewrite app_nil_r. split; [done|].
      split; [|done]. intros ? ? Hin. by apply elem_of_nil in Hin. }
  rewrite deploy_token_contract_eq. unfold scale_supply.
  apply Z.leb_le in Hdec. rewrite Hdec.
  destruct (deploy _ _ _ st) as [st1 r] eqn:Hdeploy.
  apply deploy_trace in Hdeploy
    as (_ & evs & Htr & _ & _ & Hd & _ & _ & _ & Hknown).
  simpl in Hd, Hknown.
  assert (Hin : ∀ l, deployments l = deployments evs →
                     ∀ name args, (name, args) ∈ deployments l →
                                  args = [PyInt (token_supply * 10 ^ token_decimals);
                                          PyInt token_decimals; PyStr token_name;
                                          PyStr token_symbol]).
  { intros l -> name args Hin. destruct Hd as [Hd|Hd]; rewrite Hd in Hin.
    - by apply elem_of_nil in Hin.
    - apply list_elem_of_singleton in Hin. by simplify_eq. }
  assert (Hone : ∀ l, deployments l = deployments evs →
                      ∀ o0 i, Some o = Some o0 →
                              contracts (d_contract_manager (obj_deployer o0))
                                !! obj_token_type o0 = Some i →
                              deployments l = [(obj_token_type o0,
                                 [PyInt (token_supply * 10 ^ token_decimals);
                                  PyInt token_decimals; PyStr token_name;
                                  PyStr token_symbol])]).
  { intros l -> o0 i [= <-] Hi. apply Hknown. by eexists. }
  destruct r as [e|a].
  { exists evs. simpl. split; [done|]. split; [by apply Hin | by apply Hone]. }
  destruct (truthy a && eth_utils.is_address (default "" a)).
  2:{ exists evs. simpl. split; [done|].
      split; [by apply Hin | by apply Hone]. }
  destruct (eth_utils.to_checksum_address (default "" a)) as [e|c].
  { exists evs. simpl. split; [done|].
    split; [by apply Hin | by apply Hone]. }
  assert (Hsame : deployments (evs ++ [EvPrint (OutDeployed {[obj_token_type o := Some c]})])
                  = deployments evs)
    by (rewrite deployments_app; simpl; by rewrite app_nil_r).
  destruct (obj st1); simpl;
    (eexists; split; [by rewrite Htr, <- app_assoc|]);
    (split; [by apply Hin | by apply Hone]).
Qed.

(** ** Addresses *)

Section Addresses.

Import eth_utils.

Lemma char_lower_idem c : char_lower (char_lower c) = char_lower c.
Proof. destruct c as [[] [] [] [] [] [] [] []]; reflexivity. Qed.

Lemma char_lower_upper c : char_lower (char_upper c) = char_lower c.
Proof. destruct c as [[] [] [] [] [] [] [] []]; reflexivity. Qed.

Lemma is_hexdigit_lower c : is_hexdigit (char_lower c) = is_hexdigit c.
Proof. destruct c as [[] [] [] [] [] [] [] []]; reflexivity. Qed.

Lemma is_hexdigit_upper c : is_hexdigit (char_upper c) = is_hexdigit c.
Proof. destruct c as [[] [] [] [] [] [] [] []]; reflexivity. Qed.

Lemma char_lower_zero c : char_lower c = "0"%char → c = "0"%char.
Proof. destruct c as [[] [] [] [] [] [] [] []]; intros H; done. Qed.

Lemma char_lower_x c :
  char_lower c = "x"%char → c = "x"%char ∨ c = "X"%char.
Proof. destruct c as [[] [] [] [] [] [] [] []]; intros H; auto; done. Qed.

Lemma hexdigit_not_x c :
  is_hexdigit c = true → c ≠ "x"%char ∧ c ≠ "X"%char.
Proof. destruct c as [[] [] [] [] [] [] [] []]; intros H; done. Qed.

Lemma lower_idem s : lower (lower s) = lower s.
Proof. induction s; simpl; [done|]. by rewrite char_lower_idem, IHs. Qed.

Lemma length_lower s : String.length (lower s) = String.length s.
Proof. induction s; simpl; [done|]. by rewrite IHs. Qed.

Lemma all_hexdigits_lower s : all_hexdigits (lower s) = all_hexdigits s.
Proof. induction s; simpl; [done|]. by rewrite is_hexdigit_lower, IHs. Qed.

Lemma substring_all s : String.substring 0 (String.length s) s = s.
Proof. induction s; simpl; [done|]. by rewrite IHs. Qed.

Lemma prefix_cons a s1 b s2 :
  String.prefix (String a s1) (String b s2)
  = Ascii.eqb a b && String.prefix s1 s2.
Proof.
  cbn [String.prefix].
  destruct (ascii_dec a b) as [->|Hne].
  - by rewrite Ascii.eqb_refl.
  - apply Ascii.eqb_neq in Hne. by rewrite Hne.
Qed.

Lemma prefix_empty s : String.prefix "" s = true.
Proof. by destruct s. Qed.

Lemma is_0x_prefixed_cons c1 c2 t :
  is_0x_prefixed (String c1 (String c2 t))
  = Ascii.eqb "0" c1 && (Ascii.eqb "x" c2 || Ascii.eqb "X" c2).
Proof.
  unfold is_0x_prefixed. rewrite !prefix_cons, prefix_empty.
  destruct (Ascii.eqb "0" c1), (Ascii.eqb "x" c2), (Ascii.eqb "X" c2);
    reflexivity.
Qed.

Lemma is_0x_prefixed_short c : is_0x_prefixed (String c "") = false.
Proof.
  unfold is_0x_prefixed. rewrite !prefix_cons.
  by destruct (Ascii.eqb "0" c).
Qed.

Lemma is_0x_prefixed_lower s : is_0x_prefixed (lower s) = is_0x_prefixed s.
Proof.
  destruct s as [|c1 [|c2 t]]; [done | |]; cbn [lower].
  - by rewrite !is_0x_prefixed_short.
  - rewrite !is_0x_prefixed_cons. f_equal.
    + clear. destruct c1 as [[] [] [] [] [] [] [] []]; reflexivity.
    + clear. destruct c2 as [[] [] [] [] [] [] [] []]; reflexivity.
Qed.

(** The two shapes of a string with respect to the prefix. *)
Lemma prefix_cases s :
  (∃ t, (s = String "0" (String "x" t) ∨ s = String "0" (String "X" t)) ∧
        is_0x_prefixed s = true ∧ remove_0x_prefix s = t ∧
        lower s = String "0" (String "x" (lower t))) ∨
  (is_0x_prefixed s = false ∧ remove_0x_prefix s = s ∧
   is_0x_prefixed (lower s) = false).
Proof.
  destruct (is_0x_prefixed s) eqn:Hp.
  - left. destruct s as [|c1 [|c2 t]]; [done | |].
    { by rewrite is_0x_prefixed_short in Hp. }
    exists t. unfold remove_0x_prefix. rewrite Hp.
    rewrite is_0x_prefixed_cons in Hp.
    apply andb_true_iff in Hp as [H0 Hx].
    apply Ascii.eqb_eq in H0 as <-.
    apply orb_true_iff in Hx as [Hx|Hx]; apply Ascii.eqb_eq in Hx as <-;
      simpl; rewrite Nat.sub_0_r, substring_all; auto.
  - right. unfold remove_0x_prefix.
    by rewrite is_0x_prefixed_lower, Hp.
Qed.

(** The normalized form: the prefix, then the body in lower case. *)
Lemma normalized_form v :
  lower (add_0x_prefix (lower v))
  = String "0" (String "x" (lower (remove_0x_prefix v))).
Proof.
  unfold add_0x_prefix. rewrite is_0x_prefixed_lower.
  destruct (prefix_cases v)
    as [(t & _ & Hp & Ht & Hl) | (Hp & Hr & _)]; rewrite Hp.
  - by rewrite lower_idem, Hl, Ht.
  - rewrite Hr. change ("0x" +:+ lower v) with (String "0" (String "x" (lower v))).
    cbn [lower]. by rewrite lower_idem.
Qed.

Lemma remove_0x_prefix_0x t :
  remove_0x_prefix (String "0" (String "x" t)) = t.
Proof.
  unfold remove_0x_prefix. rewrite is_0x_prefixed_cons. simpl.
  by rewrite Nat.sub_0_r, substring_all.
Qed.

Lemma is_hex_address_0x t :
  is_hex_address (String "0" (String "x" t))
  = all_hexdigits t && (String.length t =? 40)%nat.
Proof.
  unfold is_hex_address, is_hex. rewrite remove_0x_prefix_0x.
  destruct t as [|c t]; [done|]. simpl. done.
Qed.

Lemma is_hex_address_body v :
  is_hex_address v = true →
  all_hexdigits (remove_0x_prefix v) = true ∧
  String.length (remove_0x_prefix v) = 40%nat.
Proof.
  unfold is_hex_address, is_hex. intros H.
  apply andb_true_iff in H as [Hhex Hlen].
  apply Nat.eqb_eq in Hlen. split; [|done].
  destruct (String.eqb (lower v) "0x") eqn:H0x.
  - apply String.eqb_eq in H0x.
    destruct (prefix_cases v) as [(t & _ & _ & Ht & Hl) | (_ & Hr & _)].
    + rewrite Hl in H0x. injection H0x as H0x. destruct t; [|done].
      rewrite Ht in Hlen. done.
    + rewrite Hr in Hlen.
      rewrite <- length_lower, H0x in Hlen. done.
  - by apply andb_true_iff in Hhex as [_ ?].
Qed.

Lemma lower_checksum_case s h :
  lower s = s → lower (checksum_case s h) = s.
Proof.
  revert h. induction s as [|c s IH]; intros h Hs; simpl; [done|].
  injection Hs as Hc Hs. rewrite (IH _ Hs). f_equal.
  destruct (7 <? hd 0 h); [by rewrite char_lower_upper | done].
Qed.

Lemma all_hexdigits_checksum_case s h :
  all_hexdigits (checksum_case s h) = all_hexdigits s.
Proof.
  revert h. induction s as [|c s IH]; intros h; simpl; [done|].
  rewrite IH. f_equal. destruct (7 <? hd 0 h); [|done].
  apply is_hexdigit_upper.
Qed.

Lemma length_checksum_case s h :
  String.length (checksum_case s h) = String.length s.
Proof.
  revert h. induction s as [|c s IH]; intros h; simpl; [done|].
  by rewrite IH.
Qed.

(** A string of hexadecimal digits of length 40 has no prefix. *)
Lemma hex_body_not_prefixed s :
  all_hexdigits s = true → String.length s = 40%nat →
  is_0x_prefixed s = false.
Proof.
  destruct s as [|c1 [|c2 t]]; [done | done |]. simpl.
  intros H _. rewrite is_0x_prefixed_cons.
  apply andb_true_iff in H as [_ H]. apply andb_true_iff in H as [H2 _].
  apply hexdigit_not_x in H2 as [Hx HX].
  apply Ascii.eqb_neq in Hx, HX.
  rewrite (Ascii.eqb_sym "x" c2), (Ascii.eqb_sym "X" c2), Hx, HX.
  by destruct (Ascii.eqb "0" c1).
Qed.

(** What [to_checksum_address] accepts and what it returns. *)
Lemma to_checksum_address_spec v a :
  to_checksum_address v = inr a ↔
  let body := lower (remove_0x_prefix v) in
  all_hexdigits body = true ∧ String.length body = 40%nat ∧
  a = String "0" (String "x" (checksum_of body)).
Proof.
  unfold to_checksum_address, to_normalized_address. cbv zeta.
  rewrite normalized_form, is_hex_address_0x.
  set (body := lower (remove_0x_prefix v)).
  destruct (negb (String.eqb (remove_0x_prefix v) "") && negb (is_hex v))
    eqn:Hguard.
  { split; [done|]. intros (Hhex & Hlen & _). exfalso.
    apply andb_true_iff in Hguard as [Hne Hnh].
    apply negb_true_iff in Hne, Hnh. unfold is_hex in Hnh.
    destruct (String.eqb (lower v) "0x"); [done|].
    rewrite Hne in Hnh. simpl in Hnh.
    subst body. rewrite all_hexdigits_lower in Hhex. congruence. }
  destruct (all_hexdigits body) eqn:Hhex; simpl.
  2:{ split; [done | by intros [? _]]. }
  destruct (String.length body =? 40)%nat eqn:Hlen.
  2:{ apply Nat.eqb_neq in Hlen. split; [done | by intros (_ & ? & _)]. }
  apply Nat.eqb_eq in Hlen.
  rewrite remove_0x_prefix_0x. fold (checksum_of body).
  unfold add_0x_prefix.
  rewrite hex_body_not_prefixed.
  - change ("0x" +:+ ?s) with (String "0" (String "x" s)).
    split; [by intros [= <-] | by intros (_ & _ & ->)].
  - unfold checksum_of. by rewrite all_hexdigits_checksum_case.
  - unfold checksum_of. by rewrite length_checksum_case.
Qed.

(** The result of [to_checksum_address] is an address in checksum
    format. *)
Lemma to_checksum_address_checksummed v a :
  to_checksum_address v = inr a → is_checksum_address a = true.
Proof.
  intros H. apply to_checksum_address_spec in H as (Hhex & Hlen & ->).
  set (body := lower (remove_0x_prefix v)) in *.
  assert (Hbody : lower body = body) by (subst body; apply lower_idem).
  unfold is_checksum_address.
  rewrite is_hex_address_0x. unfold checksum_of at 1 2.
  rewrite all_hexdigits_checksum_case, length_checksum_case, Hhex, Hlen.
  simpl negb. cbv iota.
  assert (Hagain : to_checksum_address
                     (String "0" (String "x" (checksum_of body)))
                   = inr (String "0" (String "x" (checksum_of body)))).
  { apply to_checksum_address_spec. cbv zeta.
    rewrite remove_0x_prefix_0x.
    assert (lower (checksum_of body) = body) as ->
      by (by apply lower_checksum_case).
    done. }
  rewrite Hagain. apply String.eqb_refl.
Qed.

(** A string that [is_address] accepts is accepted by
    [to_checksum_address]; so is every string with 40 hexadecimal digits
    after the optional prefix, in whatever case. *)
Lemma is_hex_address_checksum v :
  is_hex_address v = true → ∃ a, to_checksum_address v = inr a.
Proof.
  intros H. apply is_hex_address_body in H as [Hhex Hlen].
  eexists. apply to_checksum_address_spec. cbv zeta.
  by rewrite all_hexdigits_lower, length_lower.
Qed.

Lemma is_address_hex v : is_address v = true → is_hex_address v = true.
Proof.
  unfold is_address, is_checksum_formatted_address, is_checksum_address.
  destruct (is_hex_address v); simpl; [done|]. done.
Qed.

(** On a normalized address [is_address] is [is_hex_address]. *)
Lemma is_address_lower v :
  let hex_address := lower (add_0x_prefix (lower v)) in
  is_address hex_address = is_hex_address hex_address.
Proof.
  cbv zeta. rewrite normalized_form.
  unfold is_address, is_checksum_formatted_address.
  rewrite remove_0x_prefix_0x, lower_idem, String.eqb_refl.
  by destruct (is_hex_address _).
Qed.

End Addresses.

(** ** What the deployed-contracts mappings contain *)

(** X13. The mapping that [deploy_raiden_contracts] returns has exactly the
    three contract names; each address is the [contractAddress] of a
    receipt, as the client reported it. *)
Lemma raiden_contract_names deployer st st' m :
  deploy_raiden_contracts deployer st = (st', inr m) →
  dom m = {[CONTRACT_ENDPOINT_REGISTRY; CONTRACT_SECRET_REGISTRY;
            CONTRACT_TOKEN_NETWORK_REGISTRY]} ∧
  ∀ name a, m !! name = Some a →
            ∃ w w' tx receipt,
              eth_getTransactionReceipt C w tx = (w', Some receipt) ∧
              a = contractAddress receipt.
Proof.
  intros H. apply deploy_raiden_contracts_spec in H.
  destruct H as [(? & ? & _) | (st1 & a1 & H1 & H)]; [done|].
  destruct H as [(? & ? & _) | (st2 & a2 & H2 & H)]; [done|].
  destruct H as [(_ & _ & ?) | (network & _ & r3 & H3 & Hm)]; [done|].
  destruct r3 as [e3|a3]; [done|]. injection Hm as ->.
  assert (Hreceipt : ∀ n args s s' a,
             deploy deployer n args s = (s', inr a) →
             ∃ w w' tx receipt,
               eth_getTransactionReceipt C w tx = (w', Some receipt) ∧
               a = contractAddress receipt).
  { intros n args s s' a Hd. apply deploy_spec in Hd as [_ Hd].
    destruct Hd as [(_ & _ & ?) | (r & w' & [tx|] & _ & _ & Hd)]; [done| |].
    - destruct Hd as (k & _ & _ & w & receipt & Hpoll & ->).
      by exists w, (world s'), tx, receipt.
    - by destruct Hd. }
  split.
  - rewrite !dom_insert_L, dom_empty_L. set_solver.
  - intros name a Hlook.
    apply lookup_insert_Some in Hlook as [[_ <-] | [_ Hlook]];
      [by eapply Hreceipt|].
    apply lookup_insert_Some in Hlook as [[_ <-] | [_ Hlook]];
      [by eapply Hreceipt|].
    apply lookup_insert_Some in Hlook as [[_ <-] | [_ Hlook]];
      [by eapply Hreceipt|].
    by rewrite lookup_empty in Hlook.
Qed.

(** The mapping that [deploy_token_contract] returns has exactly the token
    type name, with an address in checksum format. *)
Lemma token_contract_address d supply decimals name symbol ty st st' m :
  deploy_token_contract d supply decimals name symbol ty st = (st', inr m) →
  ∃ c, m = {[ty := Some c]} ∧ eth_utils.is_checksum_address c = true.
Proof.
  rewrite deploy_token_contract_eq. intros H.
  repeat case_match; simplify_eq.
  eexists. split; [done|]. by eapply to_checksum_address_checksummed.
Qed.

(** X12. [validate_address] returns the checksum form of every string that
    [is_address] accepts. *)
Lemma validate_address_valid v :
  eth_utils.is_address v = true →
  ∃ a, validate_address (Some v) = inr (Some a) ∧
       eth_utils.to_checksum_address v = inr a ∧
       eth_utils.is_checksum_address a = true.
Proof.
  intros H. assert (v ≠ "") as Hne by (by intros ->).
  apply is_address_hex, is_hex_address_checksum in H as [a Ha].
  exists a. unfold validate_address. simpl.
  apply String.eqb_neq in Hne. rewrite Hne. simpl. rewrite Ha.
  repeat split. by eapply to_checksum_address_checksummed.
Qed.

(** X11. [validate_address] accepts a non-empty string exactly when 40
    hexadecimal digits follow the optional prefix, whatever their case;
    it rejects every other with the parameter error. *)
Lemma validate_address_accepts v :
  v ≠ "" →
  let body := eth_utils.remove_0x_prefix v in
  if eth_utils.all_hexdigits body && (String.length body =? 40)%nat
  then validate_address (Some v)
       = inr (Some (String "0" (String "x"
                      (checksum_of (eth_utils.lower body)))))
  else validate_address (Some v)
       = inl (BadParameter "must be a valid ethereum address").
Proof.
  intros Hne. cbv zeta. unfold validate_address. simpl.
  apply String.eqb_neq in Hne. rewrite Hne. simpl.
  destruct (eth_utils.to_checksum_address v) as [e|a] eqn:Hc.
  - pose proof (to_checksum_address_error _ _ Hc) as ->.
    destruct (_ && _) eqn:Hshape; [|done].
    apply andb_true_iff in Hshape as [Hhex Hlen].
    apply Nat.eqb_eq in Hlen.
    assert (∃ a, eth_utils.to_checksum_address v = inr a) as [a Ha].
    { eexists. apply to_checksum_address_spec. cbv zeta.
      by rewrite all_hexdigits_lower, length_lower. }
    congruence.
  - apply to_checksum_address_spec in Hc as (Hhex & Hlen & ->).
    rewrite all_hexdigits_lower in Hhex. rewrite length_lower in Hlen.
    by rewrite Hhex, Hlen.
Qed.

(** ** The subcommands and the context *)

(** [deploy_raiden_contracts] and [deploy_token_contract] leave [ctx.obj]
    alone. *)
Lemma deploy_raiden_contracts_obj deployer st st' res :
  deploy_raiden_contracts deployer st = (st', res) → obj st' = obj st.
Proof.
  intros H. apply deploy_raiden_contracts_spec in H.
  destruct H as [(e & _ & H1) | (st1 & a1 & H1 & H)].
  { by apply deploy_trace in H1 as [? _]. }
  apply deploy_trace in H1 as [Ho1 _].
  destruct H as [(e & _ & H2) | (st2 & a2 & H2 & H)].
  { apply deploy_trace in H2 as [Ho2 _]. congruence. }
  apply deploy_trace in H2 as [Ho2 _].
  destruct H as [(_ & -> & _) | (network & _ & r3 & H3 & _)]; [congruence|].
  apply deploy_trace in H3 as [Ho3 _]. congruence.
Qed.

Lemma deploy_token_contract_obj d supply decimals name symbol ty st st' res :
  deploy_token_contract d supply decimals name symbol ty st = (st', res) →
  obj st' = obj st.
Proof.
  rewrite deploy_token_contract_eq.
  destruct (deploy d ty _ st) as [st1 r] eqn:Hd.
  apply deploy_trace in Hd as [Ho _].
  intros H. repeat case_match; by simplify_eq.
Qed.

Lemma raiden_contract_names_dom deployer st st' m :
  deploy_raiden_contracts deployer st = (st', inr m) →
  dom m = {[CONTRACT_ENDPOINT_REGISTRY; CONTRACT_SECRET_REGISTRY;
            CONTRACT_TOKEN_NETWORK_REGISTRY]}.
Proof.
  intros H. apply deploy_raiden_contracts_spec in H.
  destruct H as [(? & ? & _) | (st1 & a1 & H1 & H)]; [done|].
  destruct H as [(? & ? & _) | (st2 & a2 & H2 & H)]; [done|].
  destruct H as [(_ & _ & ?) | (network & _ & r3 & H3 & Hm)]; [done|].
  destruct r3 as [e3|a3]; [done|]. injection Hm as ->.
  rewrite !dom_insert_L, dom_empty_L. set_solver.
Qed.

(** [raiden], computed from [deploy_raiden_contracts]. *)
Lemma raiden_eq st :
  raiden st =
  match obj st with
  | None => (st, inl TypeError)
  | Some o =>
      match deploy_raiden_contracts (obj_deployer o) st with
      | (st1, inl e) => (st1, inl e)
      | (st1, inr deployed) =>
          match obj st1 with
          | None =>
              ({| world := world st1;
                  trace := trace st1 ++ [EvPrint (OutDeployed deployed)];
                  obj := None |}, inl TypeError)
          | Some o1 =>
              ({| world := world st1;
                  trace := trace st1 ++ [EvPrint (OutDeployed deployed)];
                  obj := Some (with_deployed o1
                                 (deployed ∪ obj_deployed_contracts o1)) |},
               inr tt)
          end
      end
  end.
Proof.
  unfold raiden, modify_deployed, bind, get_obj at 1.
  destruct (obj st) as [o|]; [|done].
  destruct (deploy_raiden_contracts _ st) as [st1 [e|m]]; [done|].
  prim. by destruct (obj st1).
Qed.

(** X1. The raiden subcommand records its three addresses together or not
    at all.  When it fails, whatever the step, [ctx.obj] is as it was; when
    it succeeds, the mapping with exactly the three contract names is
    printed as the last effect and merged into the context: its names take
    the new addresses and every other entry of the context is kept. *)
Theorem raiden_all_or_nothing st o :
  obj st = Some o →
  let run := raiden st in
  match run.2 with
  | inl _ => obj run.1 = Some o
  | inr _ =>
      ∃ m o' evs,
        dom m = {[CONTRACT_ENDPOINT_REGISTRY; CONTRACT_SECRET_REGISTRY;
                  CONTRACT_TOKEN_NETWORK_REGISTRY]} ∧
        trace run.1 = trace st ++ evs ++ [EvPrint (OutDeployed m)] ∧
        obj run.1 = Some o' ∧
        obj_deployer o' = obj_deployer o ∧
        obj_token_type o' = obj_token_type o ∧
        obj_wait o' = obj_wait o ∧
        (∀ k a, m !! k = Some a → obj_deployed_contracts o' !! k = Some a) ∧
        (∀ k, m !! k = None →
              obj_deployed_contracts o' !! k = obj_deployed_contracts o !! k)
  end.
Proof.
  intros Hobj. cbv zeta. rewrite raiden_eq, Hobj.
  destruct (deploy_raiden_contracts (obj_deployer o) st) as [st1 [e|m]] eqn:H.
  { simpl. apply deploy_raiden_contracts_obj in H. congruence. }
  pose proof (deploy_raiden_contracts_obj _ _ _ _ H) as Ho.
  pose proof (deploy_raiden_contracts_emits _ _ _ _ H) as (evs & Htr & _).
  pose proof (raiden_contract_names_dom _ _ _ _ H) as Hdom.
  rewrite Ho, Hobj. simpl.
  exists m, (with_deployed o (m ∪ obj_deployed_contracts o)), evs.
  split; [done|]. split; [by rewrite Htr, <- app_assoc|].
  repeat split.
  - intros k a Hk. by apply lookup_union_Some_l.
  - intros k Hk. by apply lookup_union_r.
Qed.

(** X2. The token subcommand records its address or nothing.  When it
    fails, [ctx.obj] is as it was; when it succeeds, the one-entry mapping
    from the token type to an address in checksum format is printed as the
    last effect and merged into the context, whose other entries are
    kept. *)
Theorem token_all_or_nothing supply name decimals symbol st o :
  obj st = Some o →
  let run := token supply name decimals symbol st in
  match run.2 with
  | inl _ => obj run.1 = Some o
  | inr _ =>
      ∃ c o' evs,
        eth_utils.is_checksum_address c = true ∧
        trace run.1
          = trace st ++ evs
            ++ [EvPrint (OutDeployed {[obj_token_type o := Some c]})] ∧
        obj run.1 = Some o' ∧
        obj_deployer o' = obj_deployer o ∧
        obj_token_type o' = obj_token_type o ∧
        obj_wait o' = obj_wait o ∧
        obj_deployed_contracts o' !! obj_token_type o = Some (Some c) ∧
        (∀ k, k ≠ obj_token_type o →
              obj_deployed_contracts o' !! k = obj_deployed_contracts o !! k)
  end.
Proof.
  intros Hobj. cbv zeta. rewrite token_eq, Hobj.
  destruct (deploy_token_contract _ _ _ _ _ _ st) as [st1 [e|m]] eqn:H.
  { simpl. apply deploy_token_contract_obj in H. congruence. }
  pose proof (deploy_token_contract_obj _ _ _ _ _ _ _ _ _ H) as Ho.
  pose proof (deploy_token_contract_emits _ _ _ _ _ _ _ _ _ H)
    as (evs & Htr & _).
  apply token_contract_address in H as (c & -> & Hc).
  rewrite Ho, Hobj. simpl.
  exists c, (with_deployed o ({[obj_token_type o := Some c]}
                              ∪ obj_deployed_contracts o)), evs.
  split; [done|]. split; [by rewrite Htr, <- app_assoc|].
  repeat split.
  - simpl. apply lookup_union_Some_l. by rewrite lookup_singleton_eq.
  - intros k Hk. simpl. apply lookup_union_r. by rewrite lookup_singleton_ne.
Qed.

(** X3. [deploy_token_contract] has no effect beyond its one deployment.
    It fails with the error of the deployment; with the empty assertion
    error when the receipt has no address, an empty one or one that
    [is_address] rejects; otherwise it returns the one-entry mapping from
    the token type to the checksum form of the address.  The conversion
    after the assertion never fails: no [ValueError] escapes. *)
Theorem deploy_token_contract_outcome d supply decimals name symbol ty st :
  let sub := deploy d ty (Some [supply; PyInt decimals; PyStr name;
                                PyStr symbol]) st in
  let run := deploy_token_contract d supply decimals name symbol ty st in
  run.1 = sub.1 ∧
  run.2 ≠ inl ValueError ∧
  match sub.2 with
  | inl e => run.2 = inl e
  | inr a =>
      if truthy a && eth_utils.is_address (default "" a)
      then ∃ c, eth_utils.to_checksum_address (default "" a) = inr c ∧
                eth_utils.is_checksum_address c = true ∧
                run.2 = inr {[ty := Some c]}
      else run.2 = inl (AssertionError "")
  end.
Proof.
  cbv zeta. rewrite deploy_token_contract_eq.
  destruct (deploy d ty _ st) as [st1 [e|a]] eqn:Hd; simpl.
  { split; [done|]. split; [|done]. intros [= ->].
    apply deploy_spec in Hd as [_ Hd].
    destruct Hd as [(_ & _ & ?) | (r & w' & [tx|] & _ & _ & Hd)]; [done| |].
    - by destruct Hd as (k & _ & _ & ? & _).
    - by destruct Hd. }
  destruct (truthy a && eth_utils.is_address (default "" a)) eqn:Hok;
    [|by simpl].
  apply andb_true_iff in Hok as [_ Hok].
  apply is_address_hex, is_hex_address_checksum in Hok as [c Hc].
  rewrite Hc. simpl. split; [done|]. split; [done|].
  exists c. repeat split. by eapply to_checksum_address_checksummed.
Qed.

(** X4. [main] installs [ctx.obj] only after the key was found, the balance
    was positive and the checksums of the sources equalled those of the
    precompiled artifacts; on every failure [ctx.obj] is left as it was.
    The installed context has no deployed contract, the token type
    [CustomToken], the wait of the command line, and a deployer with the
    key, the wait, the transaction parameters of the options and the
    contracts loaded from the source directories. *)
Theorem main_installs_context rpc_provider private_key wait gas_price
    gas_limit st :
  let run := main rpc_provider private_key wait gas_price gas_limit st in
  match run.2 with
  | inl _ => obj run.1 = obj st
  | inr _ =>
      ∃ key balance cs sums,
        get_private_key C (world st) private_key = Some (Some key) ∧
        eth_getBalance C (world st) (private_key_to_address C key)
          = Some balance ∧
        (0 < balance)%N ∧
        load_contracts C (world st) CONTRACTS_SOURCE_DIRS = Some cs ∧
        source_checksums C (world st) = Some sums ∧
        precompiled_checksums C (world st) CONTRACTS_PRECOMPILED_PATH
          = Some sums ∧
        obj run.1
          = Some {| obj_deployer :=
                      {| d_private_key := key;
                         d_wait := wait;
                         d_transaction :=
                           transaction_of (private_key_to_address C key)
                                          gas_limit gas_price;
                         d_contract_manager :=
                           {| contracts := cs;
                              contracts_checksums := Some sums |} |};
                    obj_deployed_contracts := ∅;
                    obj_token_type := "CustomToken";
                    obj_wait := wait |}
  end.
Proof.
  cbv zeta. rewrite main_eq. cbv zeta.
  destruct (get_private_key C (world st) private_key) as [[key|]|] eqn:Hkey;
    [|done|done].
  destruct (eth_getBalance C (world st) _) as [balance|] eqn:Hbal; [|done].
  destruct (0 <? balance)%N eqn:Hpos; [|done].
  apply N.ltb_lt in Hpos.
  rewrite __init___eq. cbv zeta. unfold logged. simpl.
  destruct (load_contracts C (world st) CONTRACTS_PRECOMPILED_PATH);
    [|done].
  destruct (load_contracts C (world st) CONTRACTS_SOURCE_DIRS) as [cs|]
    eqn:Hcs; [|done].
  destruct (source_checksums C (world st)) as [sums|] eqn:Hs; [|done].
  destruct (precompiled_checksums C (world st) CONTRACTS_PRECOMPILED_PATH)
    as [pc|] eqn:Hp; [|done].
  destruct (decide (sums = pc)) as [<-|Hne]; [|done].
  simpl. exists key, balance, cs, sums. done.
Qed.

(** ** Registration *)

(** X5. The course of [register_token_network].  A successful registration
    is, in order: the transaction [createERC20TokenNetwork(token)] on the
    registry with the given gas limit, the polls for the hash of that
    transaction, the read-only call [token_to_token_networks(token)] on the
    same registry, and the print of the address it returned.  A failed one
    is a [ClientError] or a [TransactionTimeout], starts with the same
    transaction and prints nothing. *)
Theorem register_token_network_course pk abi registry token wait gas_limit
    st :
  let run := register_token_network pk abi registry token wait gas_limit st in
  let create := {| fr_abi := abi;
                   fr_address := registry;
                   fr_function := "createERC20TokenNetwork";
                   fr_args := [of_address token];
                   fr_transaction := {["gas_limit" := PyInt gas_limit]};
                   fr_private_key := pk |} in
  let lookup := {| fr_abi := abi;
                   fr_address := registry;
                   fr_function := "token_to_token_networks";
                   fr_args := [of_address token];
                   fr_transaction := ∅;
                   fr_private_key := pk |} in
  match run.2 with
  | inr _ =>
      ∃ w' txhash k network gas_used,
        send_function C (world st) create = (w', Some txhash) ∧
        call_function C (world run.1) lookup = Some network ∧
        trace run.1
          = trace st ++ [EvTransact create]
            ++ replicate k (EvPollReceipt txhash)
            ++ [EvCall lookup; EvPrint (OutTokenNetwork network gas_used)]
  | inl e =>
      (e = ClientError ∨ e = TransactionTimeout) ∧
      ∃ evs, trace run.1 = trace st ++ EvTransact create :: evs ∧
             ∀ o, EvPrint o ∉ evs
  end.
Proof.
  cbv zeta. unfold register_token_network, bind. prim.
  match goal with
  | |- context [send_function C (world st) ?r] => set (create := r)
  end.
  destruct (send_function C (world st) create) as [w' [tx|]] eqn:Hsend;
    simpl.
  2:{ split; [by left|]. exists []. split; [done|].
      intros o Ho. by apply elem_of_nil in Ho. }
  unfold check_succesful_tx.
  destruct (wait_for_receipt _ _ _) as [st1 [e|receipt]] eqn:Hwait.
  - apply wait_for_receipt_spec in Hwait as (_ & k & _ & Htr & -> & _).
    simpl in *. split; [by right|].
    exists (replicate k (EvPollReceipt tx)).
    split; [by rewrite Htr, <- app_assoc|].
    intros o Ho. apply elem_of_replicate in Ho as [? _]. done.
  - apply wait_for_receipt_spec in Hwait as (_ & k & Hk & Htr & Hk1 & _).
    simpl in *.
    match goal with
    | |- context [call_function C (world st1) ?r] => set (lookup := r)
    end.
    destruct (call_function C (world st1) lookup) as [network|] eqn:Hcall;
      simpl.
    + exists w', tx, k, network, (gasUsed receipt).
      split; [done|]. split; [done|].
      rewrite Htr, <- !app_assoc. done.
    + split; [by left|].
      exists (replicate k (EvPollReceipt tx) ++ [EvCall lookup]).
      split; [by rewrite Htr, <- !app_assoc|].
      intros o Ho. apply elem_of_app in Ho as [Ho|Ho].
      * apply elem_of_replicate in Ho as [? _]. done.
      * apply list_elem_of_singleton in Ho. done.
Qed.


(** ** The phases of a run and the requests it makes *)

Lemma emits_impl {A} (K1 K2 : event → Prop) (m : M A) :
  (∀ e, K1 e → K2 e) → emits K1 m → emits K2 m.
Proof.
  intros HK Hm st st' res H. apply Hm in H as (evs & Htr & Hevs).
  exists evs. split; [done|]. by eapply Forall_impl.
Qed.

Lemma wait_for_receipt_emits_polls (K : event → Prop) n tx :
  K (EvPollReceipt tx) → emits K (wait_for_receipt n tx).
Proof.
  intros HK st st' res H.
  apply wait_for_receipt_spec in H as (_ & k & _ & Htr & _).
  eexists. split; [done|]. by apply Forall_replicate.
Qed.

Lemma deploy_no_request self n args : emits no_request (deploy self n args).
Proof.
  unfold deploy, get_contract, check_succesful_tx. judge; try done.
  by apply wait_for_receipt_emits_polls.
Qed.

Lemma deploy_deployed_by self n args :
  emits (deployed_by self) (deploy self n args).
Proof.
  intros st st' res H. apply deploy_spec in H as [_ H].
  destruct H as [(_ & -> & _) | (r & w' & sent & Hreq & _ & H)].
  { exists []. by rewrite app_nil_r. }
  destruct Hreq as (Hn & Hci & _ & Htx & Hkey).
  assert (Hr : deployed_by self (EvDeploy r)).
  { unfold deployed_by. simpl. by rewrite Hn. }
  destruct sent as [tx|].
  - destruct H as (k & _ & Htr & _). eexists. split; [exact Htr|].
    constructor; [done|]. by apply Forall_replicate.
  - destruct H as (_ & _ & Htr). eexists. split; [exact Htr|].
    constructor; [done | constructor].
Qed.

Hint Resolve deploy_no_request deploy_deployed_by : judge.

Lemma deploy_raiden_contracts_deployed_by d :
  emits (deployed_by d) (deploy_raiden_contracts d).
Proof. unfold deploy_raiden_contracts. judge. Qed.

Lemma deploy_token_contract_deployed_by d s dec n sym ty :
  emits (deployed_by d) (deploy_token_contract d s dec n sym ty).
Proof. unfold deploy_token_contract. judge. Qed.

Lemma deploy_raiden_contracts_requests d :
  emits registry_request (deploy_raiden_contracts d).
Proof.
  apply (emits_impl no_request); [by intros []|].
  unfold deploy_raiden_contracts. judge.
Qed.

Lemma deploy_token_contract_requests d s dec n sym ty :
  emits registry_request (deploy_token_contract d s dec n sym ty).
Proof.
  apply (emits_impl no_request); [by intros []|].
  unfold deploy_token_contract. judge.
Qed.

Hint Resolve deploy_raiden_contracts_requests
  deploy_token_contract_requests : judge.

Lemma register_token_network_requests pk abi ra ta wait :
  emits registry_request (register_token_network pk abi ra ta wait 4000000).
Proof.
  unfold register_token_network, check_succesful_tx. judge; try done.
  by apply wait_for_receipt_emits_polls.
Qed.

Lemma register_token_network_deployed_by d pk abi ra ta wait gl :
  emits (deployed_by d) (register_token_network pk abi ra ta wait gl).
Proof.
  unfold register_token_network, check_succesful_tx. judge; try done.
  by apply wait_for_receipt_emits_polls.
Qed.

Hint Resolve register_token_network_requests
  register_token_network_deployed_by : judge.

Lemma invoke_requests c : emits registry_request (invoke c).
Proof.
  destruct c; simpl; unfold raiden, token, register, modify_deployed,
    get_contract_abi; judge; done.
Qed.

Lemma invoke_chain_requests cs : emits registry_request (invoke_chain cs).
Proof.
  induction cs; simpl; judge. apply invoke_requests.
Qed.

(** A successful [main]: what it read, what it did, what it installed. *)
Lemma main_success rpc_provider private_key wait gas_price gas_limit st st' :
  main rpc_provider private_key wait gas_price gas_limit st = (st', inr tt) →
  ∃ key cs sums,
    get_private_key C (world st) private_key = Some (Some key) ∧
    load_contracts C (world st) CONTRACTS_SOURCE_DIRS = Some cs ∧
    trace st'
      = trace st
        ++ [EvPrint (OutProvider rpc_provider);
            EvGetBalance (private_key_to_address C key);
            EvLoadContracts CONTRACTS_PRECOMPILED_PATH;
            EvLoadContracts CONTRACTS_SOURCE_DIRS;
            EvChecksumContracts;
            EvVerifyChecksums CONTRACTS_PRECOMPILED_PATH] ∧
    obj st'
      = Some {| obj_deployer :=
                  {| d_private_key := key;
                     d_wait := wait;
                     d_transaction :=
                       transaction_of (private_key_to_address C key)
                                      gas_limit gas_price;
                     d_contract_manager :=
                       {| contracts := cs;
                          contracts_checksums := Some sums |} |};
                obj_deployed_contracts := ∅;
                obj_token_type := "CustomToken";
                obj_wait := wait |}.
Proof.
  rewrite main_eq. cbv zeta.
  destruct (get_private_key C (world st) private_key) as [[key|]|] eqn:Hkey;
    [|done|done].
  destruct (eth_getBalance C (world st) _) as [balance|]; [|done].
  destruct (0 <? balance)%N; [|done].
  rewrite __init___eq. cbv zeta. unfold logged. simpl.
  destruct (load_contracts C (world st) CONTRACTS_PRECOMPILED_PATH);
    [|done].
  destruct (load_contracts C (world st) CONTRACTS_SOURCE_DIRS) as [cs|]
    eqn:Hcs; [|done].
  intros Hrun. repeat case_match; simplify_eq.
  eexists _, _, _. split; [done|]. split; [done|]. split; [|done].
  simpl. by rewrite <- !app_assoc.
Qed.

(** X6. A run has two phases.  Its trace is a sequence of set-up events
    (print of the provider, balance check, loading and verification of the
    artifacts) followed by a sequence of subcommand events (deployments,
    registry requests, receipt polls, prints of results): nothing is sent
    before the set-up is over and nothing is checked after it.  When a
    subcommand event occurs at all, the set-up was complete: exactly the
    print, one balance check, the two loads, the checksum computation and
    one verification, in this order. *)
Theorem run_phases rpc_provider private_key wait gas_price gas_limit
    commands w :
  let run := cli rpc_provider private_key wait gas_price gas_limit commands
                 (initial w) in
  ∃ setup pipeline,
    trace run.1 = setup ++ pipeline ∧
    Forall is_setup setup ∧
    Forall is_pipeline pipeline ∧
    (pipeline ≠ [] →
     ∃ owner,
       setup = [EvPrint (OutProvider rpc_provider);
                EvGetBalance owner;
                EvLoadContracts CONTRACTS_PRECOMPILED_PATH;
                EvLoadContracts CONTRACTS_SOURCE_DIRS;
                EvChecksumContracts;
                EvVerifyChecksums CONTRACTS_PRECOMPILED_PATH]).
Proof.
  cbv zeta. destruct commands as [|c cs].
  { exists [], []. simpl. repeat split; done. }
  rewrite cli_spec.
  destruct (main _ _ _ _ _ _) as [st1 r1] eqn:Hmain.
  pose proof Hmain as Hem. apply main_emits in Hem as (evs & Htr & Hsetup).
  simpl in Htr.
  destruct r1 as [e|[]].
  { exists evs, []. simpl. rewrite app_nil_r. repeat split; done. }
  apply main_success in Hmain as (key & _ & _ & _ & _ & Htr1 & _).
  simpl in Htr1.
  destruct (make_contexts (c :: cs)) as [e|contexts].
  { exists evs, []. simpl. rewrite app_nil_r. repeat split; done. }
  destruct (invoke_chain contexts st1) as [st2 r2] eqn:Hrun. simpl.
  apply invoke_chain_emits in Hrun as (evs' & Htr' & Hpipe).
  exists evs, evs'. split; [by rewrite Htr', Htr|].
  split; [done|]. split; [done|].
  intros _. exists (private_key_to_address C key). congruence.
Qed.

(** X7. Whatever the gas price and the gas limit of the command line, every
    transaction that a run sends to a function of a deployed contract is
    [createERC20TokenNetwork] with one argument and with transaction
    parameters that consist of a gas limit of 4000000 and nothing else, and
    every read-only call is [token_to_token_networks] with one argument and
    no parameters: the options reach the deployments only. *)
Theorem registration_requests rpc_provider private_key wait gas_price
    gas_limit commands w :
  let run := cli rpc_provider private_key wait gas_price gas_limit commands
                 (initial w) in
  Forall registry_request (trace run.1).
Proof.
  cbv zeta. destruct commands as [|c cs]; [by constructor|].
  rewrite cli_spec.
  destruct (main _ _ _ _ _ _) as [st1 r1] eqn:Hmain.
  apply main_emits in Hmain as (evs & Htr & Hsetup). simpl in Htr.
  assert (Hevs : Forall registry_request evs).
  { eapply Forall_impl; [exact Hsetup|].
    by intros [[]| | | | | | | |]. }
  destruct r1 as [e|[]]; [simpl; by rewrite Htr|].
  destruct (make_contexts (c :: cs)) as [e|contexts];
    [simpl; by rewrite Htr|].
  destruct (invoke_chain contexts st1) as [st2 r2] eqn:Hrun. simpl.
  apply invoke_chain_requests in Hrun as (evs' & Htr' & Hreq).
  rewrite Htr', Htr. by apply Forall_app.
Qed.

(** One subcommand on an installed context: the deployer, the token type
    and the wait of the context stay, and every deployment is made by the
    deployer of the context. *)
Lemma invoke_step c st st' res o :
  obj st = Some o →
  invoke c st = (st', res) →
  (∃ o', obj st' = Some o' ∧
         obj_deployer o' = obj_deployer o ∧
         obj_token_type o' = obj_token_type o ∧
         obj_wait o' = obj_wait o) ∧
  ∃ evs, trace st' = trace st ++ evs ∧
         Forall (deployed_by (obj_deployer o)) evs.
Proof.
  intros Hobj. destruct c; simpl.
  - rewrite raiden_eq, Hobj.
    destruct (deploy_raiden_contracts (obj_deployer o) st)
      as [st1 r] eqn:Hd.
    pose proof (deploy_raiden_contracts_obj _ _ _ _ Hd) as Ho.
    apply deploy_raiden_contracts_deployed_by in Hd as (evs & Htr & Hevs).
    rewrite Ho, Hobj. destruct r as [e|m]; intros H; simplify_eq; simpl.
    + split; [exists o; by rewrite Ho | by exists evs].
    + split; [by eexists|].
      exists (evs ++ [EvPrint (OutDeployed m)]).
      split; [by rewrite Htr, <- app_assoc|].
      apply Forall_app. split; [done|]. by repeat constructor.
  - rewrite token_eq, Hobj.
    destruct (deploy_token_contract _ _ _ _ _ _ st) as [st1 r] eqn:Hd.
    pose proof (deploy_token_contract_obj _ _ _ _ _ _ _ _ _ Hd) as Ho.
    apply deploy_token_contract_deployed_by in Hd as (evs & Htr & Hevs).
    rewrite Ho, Hobj. destruct r as [e|m]; intros H; simplify_eq; simpl.
    + split; [exists o; by rewrite Ho | by exists evs].
    + split; [by eexists|].
      exists (evs ++ [EvPrint (OutDeployed m)]).
      split; [by rewrite Htr, <- app_assoc|].
      apply Forall_app. split; [done|]. by repeat constructor.
  - rewrite (register_eq _ _ _ _ Hobj). cbv zeta.
    set (d := apply_flags _ _ _ _).
    assert (Hquiet : (∃ o', Some (with_deployed o d) = Some o' ∧
                                 obj_deployer o' = obj_deployer o ∧
                                 obj_token_type o' = obj_token_type o ∧
                                 obj_wait o' = obj_wait o) ∧
                          ∃ evs, trace st = trace st ++ evs ∧
                                 Forall (deployed_by (obj_deployer o)) evs).
    { split; [by eexists|]. exists []. by rewrite app_nil_r. }
    intros Hrun. repeat case_match; simplify_eq; simpl; try by apply Hquiet.
    pose proof (register_token_network_spec _ _ _ _ _ _ _ _ _ Hrun)
      as (Ho & _).
    apply (register_token_network_deployed_by (obj_deployer o)) in Hrun
      as (evs & Htr & Hevs).
    simpl in *. split; [rewrite Ho; by eexists | by exists evs].
Qed.

Lemma invoke_chain_deployed_by cs st st' res o :
  obj st = Some o →
  invoke_chain cs st = (st', res) →
  ∃ evs, trace st' = trace st ++ evs ∧
         Forall (deployed_by (obj_deployer o)) evs.
Proof.
  revert st o. induction cs as [|c cs IH]; intros st o Hobj; simpl.
  { intros H. prim. simplify_eq. exists []. by rewrite app_nil_r. }
  unfold bind. destruct (invoke c st) as [st1 r] eqn:Hc.
  apply (invoke_step _ _ _ _ _ Hobj) in Hc
    as [(o1 & Hobj1 & Hdep & _) (evs & Htr & Hevs)].
  destruct r as [e|[]]; intros H.
  { simplify_eq. by exists evs. }
  apply (IH _ _ Hobj1) in H as (evs' & Htr' & Hevs'). rewrite Hdep in Hevs'.
  exists (evs ++ evs'). split; [by rewrite Htr', Htr, <- app_assoc|].
  by apply Forall_app.
Qed.

(** X8. Every deployment of a run is signed with the key that [main] read,
    carries the transaction parameters that [main] derived from the
    options (the address of the key as sender, the gas limit, and the gas
    price in wei unless it is 0), and takes its ABI and bytecode from the
    contracts loaded from the source directories, which replaced the
    precompiled ones in the deployer. *)
Theorem deployments_use_the_options rpc_provider private_key wait gas_price
    gas_limit commands w key cs :
  get_private_key C w private_key = Some (Some key) →
  load_contracts C w CONTRACTS_SOURCE_DIRS = Some cs →
  let run := cli rpc_provider private_key wait gas_price gas_limit commands
                 (initial w) in
  Forall (deployed_with
            key
            (transaction_of (private_key_to_address C key) gas_limit
                            gas_price)
            cs)
         (trace run.1).
Proof.
  intros Hkey Hcs. cbv zeta. destruct commands as [|c cs0]; [by constructor|].
  rewrite cli_spec.
  destruct (main _ _ _ _ _ _) as [st1 r1] eqn:Hmain.
  pose proof Hmain as Hem. apply main_emits in Hem as (evs & Htr & Hsetup).
  simpl in Htr.
  assert (Hevs : ∀ k t a, Forall (deployed_with k t a) evs).
  { intros k t a. eapply Forall_impl; [exact Hsetup|].
    by intros [[]| | | | | | | |]. }
  destruct r1 as [e|[]]; [simpl; by rewrite Htr|].
  apply main_success in Hmain
    as (key' & cs' & sums & Hkey' & Hcs' & _ & Hobj).
  simpl in Hkey', Hcs'. rewrite Hkey in Hkey'. injection Hkey' as <-.
  rewrite Hcs in Hcs'. injection Hcs' as <-.
  destruct (make_contexts (c :: cs0)) as [e|contexts];
    [simpl; by rewrite Htr|].
  destruct (invoke_chain contexts st1) as [st2 r2] eqn:Hrun. simpl.
  apply (invoke_chain_deployed_by _ _ _ _ _ Hobj) in Hrun
    as (evs' & Htr' & Hby).
  rewrite Htr', Htr. apply Forall_app. split; [done|]. exact Hby.
Qed.

Lemma deploy_raiden_contracts_no_request d :
  emits no_request (deploy_raiden_contracts d).
Proof. unfold deploy_raiden_contracts. judge. Qed.

Lemma deploy_token_contract_no_request d s dec n sym ty :
  emits no_request (deploy_token_contract d s dec n sym ty).
Proof. unfold deploy_token_contract. judge. Qed.

(** X9. The chain [raiden token register] registers what it deployed.
    When the three subcommands run on one context and succeed, the first
    request on a deployed contract is the [createERC20TokenNetwork]
    transaction of the registration: it is sent to the address that
    [raiden] printed for the TokenNetworkRegistry, with the ABI of that
    contract and the key of the deployer, and its argument is the
    checksummed address that [token] printed. *)
Theorem chain_registers_the_deployed supply name decimals symbol st st' o :
  obj st = Some o →
  obj_token_type o ≠ CONTRACT_TOKEN_NETWORK_REGISTRY →
  invoke_chain [Raiden; Token supply name decimals symbol;
                Register None None] st = (st', inr tt) →
  ∃ m registry c i evs1 evs2 evs3,
    m !! CONTRACT_TOKEN_NETWORK_REGISTRY = Some registry ∧
    contracts (d_contract_manager (obj_deployer o))
      !! CONTRACT_TOKEN_NETWORK_REGISTRY = Some i ∧
    Forall no_request evs1 ∧ Forall no_request evs2 ∧
    trace st'
      = trace st
        ++ evs1 ++ [EvPrint (OutDeployed m)]
        ++ evs2 ++ [EvPrint (OutDeployed {[obj_token_type o := Some c]})]
        ++ EvTransact {| fr_abi := abi i;
                         fr_address := registry;
                         fr_function := "createERC20TokenNetwork";
                         fr_args := [PyStr c];
                         fr_transaction := {["gas_limit" := PyInt 4000000]};
                         fr_private_key := d_private_key (obj_deployer o) |}
        :: evs3.
Proof.
  intros Hobj Hty. simpl. unfold bind at 1.
  rewrite raiden_eq, Hobj.
  destruct (deploy_raiden_contracts (obj_deployer o) st) as [st1 [e|m]] eqn:H1;
    [done|].
  pose proof (deploy_raiden_contracts_obj _ _ _ _ H1) as Ho1.
  pose proof (raiden_contract_names_dom _ _ _ _ H1) as Hdom.
  apply deploy_raiden_contracts_no_request in H1 as (evs1 & Htr1 & Hevs1).
  rewrite Ho1, Hobj. unfold bind at 1. rewrite token_eq. simpl.
  match goal with |- context [deploy_token_contract ?d ?s ?dec ?n ?sy ?ty ?s2] =>
    destruct (deploy_token_contract d s dec n sy ty s2) as [st2 [e|m2]] eqn:H2
  end; [done|].
  pose proof (deploy_token_contract_obj _ _ _ _ _ _ _ _ _ H2) as Ho2.
  pose proof (token_contract_address _ _ _ _ _ _ _ _ _ H2) as (c & -> & _).
  apply deploy_token_contract_no_request in H2 as (evs2 & Htr2 & Hevs2).
  simpl in Ho2, Htr2. rewrite Ho2. unfold bind at 1.
  erewrite register_eq by (simpl; reflexivity). cbv zeta.
  unfold apply_flags. simpl.
  assert (Hreg : ∃ registry, m !! CONTRACT_TOKEN_NETWORK_REGISTRY
                             = Some registry).
  { apply elem_of_dom. rewrite Hdom. set_solver. }
  destruct Hreg as [registry Hreg].
  rewrite lookup_union_r by (by rewrite lookup_singleton_ne).
  rewrite (lookup_union_Some_l _ _ _ _ Hreg).
  rewrite (lookup_union_Some_l _ _ _ (Some c))
    by (by rewrite lookup_singleton_eq).
  destruct (contracts _ !! CONTRACT_TOKEN_NETWORK_REGISTRY) as [i|] eqn:Hi;
    [|done].
  destruct (register_token_network _ _ _ _ _ _ _) as [st3 [e|[]]] eqn:H3;
    [done|].
  apply register_token_network_spec in H3 as (_ & _ & evs3 & Htr3).
  simpl in Htr3. intros [= <-].
  exists m, registry, c, i, evs1, evs2, evs3.
  split; [done|]. split; [done|]. split; [done|]. split; [done|].
  rewrite Htr3, Htr2, Htr1. by rewrite <- !app_assoc.
Qed.

(** ** The option callback *)

(** What [to_checksum_address] returns it returns again for its own
    result. *)
Lemma to_checksum_address_idem v a :
  eth_utils.to_checksum_address v = inr a →
  eth_utils.to_checksum_address a = inr a.
Proof.
  intros H. apply to_checksum_address_spec in H as (Hhex & Hlen & ->).
  apply to_checksum_address_spec. cbv zeta.
  rewrite remove_0x_prefix_0x.
  assert (eth_utils.lower
            (checksum_of (eth_utils.lower (eth_utils.remove_0x_prefix v)))
          = eth_utils.lower (eth_utils.remove_0x_prefix v)) as ->
    by (apply lower_checksum_case, lower_idem).
  done.
Qed.

(** X10. The three outcomes of [validate_address].  It returns [None]
    exactly for a missing or empty value; it fails
    with no other error than the parameter error; and an address that it
    returns is in checksum format and is returned unchanged when it is
    validated again. *)
Theorem validate_address_outcome value :
  match validate_address value with
  | inr None => value = None ∨ value = Some ""
  | inr (Some a) =>
      truthy value = true ∧
      eth_utils.is_checksum_address a = true ∧
      validate_address (Some a) = inr (Some a)
  | inl e =>
      truthy value = true ∧
      e = BadParameter "must be a valid ethereum address"
  end.
Proof.
  destruct (validate_address value) as [e|r] eqn:H.
  { split; [|by eapply validate_address_error].
    unfold validate_address in H. by destruct (truthy value). }
  unfold validate_address in H.
  destruct value as [v|]; simpl in H; [|simplify_eq; by left].
  destruct (String.eqb v "") eqn:Hv; simpl in H.
  { apply String.eqb_eq in Hv as ->. simplify_eq. by right. }
  destruct (eth_utils.to_checksum_address v) as [e|a] eqn:Hc.
  { by destruct e. }
  injection H as <-. simpl. rewrite Hv. split; [done|].
  split; [by eapply to_checksum_address_checksummed|].
  unfold validate_address. simpl.
  pose proof (to_checksum_address_idem _ _ Hc) as Hagain.
  apply to_checksum_address_spec in Hc as (_ & _ & ->).
  simpl. by rewrite Hagain.
Qed.

(** ** The addresses in the context *)






End Deploy.

Arguments world {C} _.
Arguments trace {C} _.
Arguments obj {C} _.

(** ** The script on concrete inputs *)

(** The checksum format, on the test vectors of EIP-55. *)
Example to_checksum_address_vectors :
  eth_utils.to_checksum_address "0x5aaeb6053f3e94c9b9a09f33669435e7ef1beaed"
    = inr "0x5aAeb6053F3E94C9b9A09f33669435E7Ef1BeAed" ∧
  eth_utils.to_checksum_address "0xFB6916095CA1DF60BB79CE92CE3EA74C37C5D359"
    = inr "0xfB6916095ca1df60bB79Ce92cE3Ea74c37c5d359" ∧
  eth_utils.to_checksum_address "dbf03b407c01e7cd3cbea99509d93f8dddc8c6fb"
    = inr "0xdbF03B407c01E7cD3CBea99509d93f8DDDC8C6FB" ∧
  eth_utils.is_address "0xD1220A0cf47c7B9Be7A2E6BA89F429762e7b9aDb" = true ∧
  eth_utils.to_checksum_address "0xD1220A0cf47c7B9Be7A2E6BA89F429762e7b9aD"
    = inl ValueError ∧
  eth_utils.to_checksum_address "not an address" = inl ValueError.
Proof. vm_compute. repeat split. Qed.

(** C8, on a mixed-case address whose checksum is wrong (the last letter
    is in the wrong case): [is_address] rejects it, and
    [validate_address], which drops that verdict, returns the address with
    its case corrected instead of raising the parameter error. *)
Theorem validate_address_bad_checksum :
  let value := "0xD1220A0cf47c7B9Be7A2E6BA89F429762e7b9aDB" in
  eth_utils.is_address value = false ∧
  validate_address (Some value)
    = inr (Some "0xD1220A0cf47c7B9Be7A2E6BA89F429762e7b9aDb").
Proof. vm_compute. split; reflexivity. Qed.

(** C4, for a negative number of decimals, which the command line
    accepts: with supply 3 and decimals -1 the constructor argument that
    [token] passes is the float that Python computes for [3 * 10 ** -1],
    not an integer and not 3 × 10^-1. *)
Lemma token_supply_argument_counterexample :
  let st := (main Sim.client "http://127.0.0.1:8545" "keyfile" 300 5 5500000
                  (initial Sim.client (Sim.node0 Sim.checksummed))).1 in
  scale_supply 3 (-1) = PyFloat ∧
  deployments (trace (token Sim.client 3 "CustomToken" (-1) "TKN" st).1)
    = [("CustomToken",
        [PyFloat; PyInt (-1); PyStr "CustomToken"; PyStr "TKN"])].
Proof. cbv zeta. split; vm_compute; reflexivity. Qed.

(** ** The simulated clients *)

Lemma position_last txhash sent :
  is_Some (Sim.position txhash (sent ++ [txhash])).
Proof.
  induction sent as [|h sent IH]; simpl.
  - rewrite String.eqb_refl. by eexists.
  - destruct (String.eqb h txhash); [by eexists|].
    destruct IH as [n ->]. by eexists.
Qed.

(** The simulated client mines, on the nodes that are set to mine. *)
Lemma sim_client_mines : mines Sim.client (λ w, Sim.sim_mines w = true).
Proof.
  intros w Hw. split; [by eexists|]. intros r.
  destruct (position_last ("0x" +:+ pretty (length (Sim.sim_sent w)))
                          (Sim.sim_sent w)) as [n Hn].
  cbn [Sim.client send_constructor eth_getTransactionReceipt].
  unfold Sim.send, Sim.receipt_of.
  eexists _, _, _, _. split; [reflexivity|].
  cbn [Sim.sim_mines Sim.sim_sent]. rewrite Hw, Hn. split; reflexivity.
Qed.


(** ** Instances of the theorems *)

(** The token subcommand after [main], with the defaults of the command
    line: supply 10_000_000 and 18 decimals give the constructor argument
    10_000_000 × 10^18. *)
Lemma token_supply_argument_witness :
  let st := (main Sim.client "http://127.0.0.1:8545" "keyfile" 300 5 5500000
                  (initial Sim.client (Sim.node0 Sim.checksummed))).1 in
  0 ≤ 18 ∧
  ∃ evs,
    trace (token Sim.client 10000000 "CustomToken" 18 "TKN" st).1
      = trace st ++ evs ∧
    deployments evs
      = [("CustomToken",
          [PyInt 10000000000000000000000000; PyInt 18; PyStr "CustomToken";
           PyStr "TKN"])].
Proof.
  cbv zeta. split; [lia|].
  destruct (token_supply_argument Sim.client 10000000 "CustomToken" 18 "TKN"
              (main Sim.client "http://127.0.0.1:8545" "keyfile" 300 5 5500000
                    (initial Sim.client (Sim.node0 Sim.checksummed))).1
              ltac:(lia))
    as (evs & Htr & _ & Hone).
  exists evs. split; [exact Htr|].
  assert (H : ∃ o, obj (main Sim.client "http://127.0.0.1:8545" "keyfile" 300
                             5 5500000
                             (initial Sim.client
                                      (Sim.node0 Sim.checksummed))).1
                   = Some o ∧
                   obj_token_type o = "CustomToken" ∧
                   contracts (d_contract_manager (obj_deployer o))
                     !! obj_token_type o
                   = Some (Sim.interface_of "CustomToken"))
    by (eexists; vm_compute; repeat split; reflexivity).
  destruct H as (o & Hobj & Hty & Hi).
  rewrite (Hone o _ Hobj Hi), Hty. reflexivity.
Defined.

(** [register] without flags on the empty context fails on the assertion. *)
Lemma register_assertion_witness :
  let st := (main Sim.client "http://127.0.0.1:8545" "keyfile" 300 5 5500000
                  (initial Sim.client (Sim.node0 Sim.checksummed))).1 in
  ∃ o, obj st = Some o ∧
       ∃ msg, (register Sim.client None None st).2 = inl (AssertionError msg).
Proof.
  cbv zeta. eexists. split; [vm_compute; reflexivity|].
  eapply register_assertion; [vm_compute; reflexivity|].
  vm_compute. intros [[? H] _]. discriminate H.
Defined.

(** With an empty account the run stops at the balance check. *)
Lemma balance_check_witness :
  [Raiden] ≠ [] ∧
  get_private_key Sim.client Sim.broke "keyfile" = Some (Some "key:keyfile") ∧
  eth_getBalance Sim.client Sim.broke
                 (private_key_to_address Sim.client "key:keyfile") = Some 0%N ∧
  (cli Sim.client 500 555428 "http://127.0.0.1:8545" "keyfile" 300 5 5500000
       [Raiden] (initial Sim.client Sim.broke)).2
    = inl (AssertionError "Account with insuficient funds.").
Proof.
  split; [discriminate|]. split; [reflexivity|]. split; [reflexivity|].
  eapply (balance_check Sim.client 500 555428 "http://127.0.0.1:8545"
                        "keyfile" 300 5 5500000 [Raiden] Sim.broke
                        "key:keyfile" 0%N);
    [discriminate | reflexivity | reflexivity | reflexivity].
Defined.

(** A deployer with wait 0 on the client that never returns a receipt. *)
Lemma deploy_times_out_witness :
  d_wait Sim.impatient = 0 ∧
  (∀ w tx, (eth_getTransactionReceipt Sim.silent w tx).2 = None) ∧
  (deploy Sim.silent Sim.impatient CONTRACT_ENDPOINT_REGISTRY None
          (initial Sim.silent (Sim.node0 []))).2
    = inl TransactionTimeout.
Proof.
  split; [reflexivity|]. split; [intros; reflexivity|].
  destruct (deploy_times_out Sim.silent Sim.impatient
              CONTRACT_ENDPOINT_REGISTRY None
              (initial Sim.silent (Sim.node0 []))
              eq_refl (λ _ _, eq_refl))
    as (st' & e & Hrun & _ & Hsubmitted).
  rewrite Hrun. simpl. f_equal.
  eapply (Hsubmitted
            {| dr_contract_name := CONTRACT_ENDPOINT_REGISTRY;
               dr_interface := Sim.interface_of CONTRACT_ENDPOINT_REGISTRY;
               dr_args := [];
               dr_transaction := d_transaction Sim.impatient;
               dr_private_key := d_private_key Sim.impatient |}).
  - repeat split; vm_compute; reflexivity.
  - vm_compute. reflexivity.
Defined.

(** Construction on the simulated node with a gas price of 5 gwei. *)
Lemma transaction_parameters_witness :
  ∃ st' d,
    __init__ Sim.client "key:keyfile" 5500000 5 300
             (initial Sim.client (Sim.node0 Sim.checksummed)) = (st', inr d) ∧
    d_transaction d !! "gasPrice" = Some (PyInt 5000000000) ∧
    d_transaction d !! "gas_limit" = Some (PyInt 5500000).
Proof.
  assert (Hok : match (__init__ Sim.client "key:keyfile" 5500000 5 300
                                (initial Sim.client
                                         (Sim.node0 Sim.checksummed))).2
                with inr _ => true | inl _ => false end = true)
    by (vm_compute; reflexivity).
  destruct (__init__ Sim.client "key:keyfile" 5500000 5 300
                     (initial Sim.client (Sim.node0 Sim.checksummed)))
    as [st' [e|d]] eqn:H.
  { discriminate Hok. }
  exists st', d. split; [reflexivity|].
  destruct (transaction_parameters _ _ _ _ _ _ _ _ H)
    as (_ & Hlimit & _ & Hprice & _).
  split; [apply Hprice; discriminate | exact Hlimit].
Defined.

(** After the raiden subcommand, [register] with a token address: the token
    entry is the supplied address, the registry entry is the one the raiden
    subcommand recorded. *)
Lemma register_flags_witness :
  let st := (cli Sim.client 500 555428 "http://127.0.0.1:8545" "keyfile"
                 300 5 5500000 [Raiden]
                 (initial Sim.client (Sim.node0 Sim.checksummed))).1 in
  let token := "0xD1220A0cf47c7B9Be7A2E6BA89F429762e7b9aDb" in
  ∃ o o',
    obj st = Some o ∧
    obj_token_type o ≠ CONTRACT_TOKEN_NETWORK_REGISTRY ∧
    obj (register Sim.client (Some token) None st).1 = Some o' ∧
    obj_deployed_contracts o' !! "CustomToken" = Some (Some token) ∧
    obj_deployed_contracts o' !! CONTRACT_TOKEN_NETWORK_REGISTRY
      = Some (Some "0xdbF03B407c01E7cD3CBea99509d93f8DDDC8C6FB").
Proof.
  cbv zeta.
  assert (H : ∃ o, obj (cli Sim.client 500 555428 "http://127.0.0.1:8545"
                            "keyfile" 300 5 5500000 [Raiden]
                            (initial Sim.client (Sim.node0 Sim.checksummed))).1
                   = Some o ∧
                   obj_token_type o = "CustomToken" ∧
                   obj_deployed_contracts o !! CONTRACT_TOKEN_NETWORK_REGISTRY
                   = Some (Some "0xdbF03B407c01E7cD3CBea99509d93f8DDDC8C6FB"))
    by (eexists; vm_compute; repeat split; reflexivity).
  destruct H as (o & Hobj & Hty & Hreg).
  assert (Hne : obj_token_type o ≠ CONTRACT_TOKEN_NETWORK_REGISTRY)
    by (rewrite Hty; discriminate).
  destruct (register_flags Sim.client
              (Some "0xD1220A0cf47c7B9Be7A2E6BA89F429762e7b9aDb") None _ o
              Hobj Hne)
    as (o' & Hobj' & _ & _ & _ & _ & Htoken & _ & _ & Hkeep & _).
  exists o, o'. split; [exact Hobj|]. split; [exact Hne|].
  split; [exact Hobj'|]. split.
  - rewrite <- Hty. apply (Htoken _ eq_refl). discriminate.
  - rewrite (Hkeep eq_refl). exact Hreg.
Defined.

(** The raiden subcommand after [main] on the simulated node. *)
Lemma raiden_all_or_nothing_witness :
  let st := (main Sim.client "http://127.0.0.1:8545" "keyfile" 300 5 5500000
                  (initial Sim.client (Sim.node0 Sim.checksummed))).1 in
  ∃ o o' (m : gmap string (option string)),
    obj st = Some o ∧
    obj (raiden Sim.client 500 555428 st).1 = Some o' ∧
    dom m = {[CONTRACT_ENDPOINT_REGISTRY; CONTRACT_SECRET_REGISTRY;
              CONTRACT_TOKEN_NETWORK_REGISTRY]} ∧
    ∀ k a, m !! k = Some a → obj_deployed_contracts o' !! k = Some a.
Proof.
  cbv zeta.
  set (st := (main Sim.client "http://127.0.0.1:8545" "keyfile" 300 5 5500000
                   (initial Sim.client (Sim.node0 Sim.checksummed))).1).
  assert (Hobj : ∃ o, obj st = Some o) by (eexists; vm_compute; reflexivity).
  destruct Hobj as [o Hobj].
  assert (Hok : match (raiden Sim.client 500 555428 st).2 with
                | inr _ => true
                | inl _ => false
                end = true) by (vm_compute; reflexivity).
  pose proof (raiden_all_or_nothing Sim.client 500 555428 st o Hobj) as H.
  cbv zeta in H.
  destruct (raiden Sim.client 500 555428 st).2; [discriminate Hok|].
  destruct H as (m & o' & evs & Hdom & _ & Hobj' & _ & _ & _ & Hnew & _).
  exists o, o', m. split; [exact Hobj|]. split; [exact Hobj'|].
  split; [exact Hdom | exact Hnew].
Defined.

(** The token subcommand after [main] on the simulated node. *)
Lemma token_all_or_nothing_witness :
  let st := (main Sim.client "http://127.0.0.1:8545" "keyfile" 300 5 5500000
                  (initial Sim.client (Sim.node0 Sim.checksummed))).1 in
  ∃ o o' c,
    obj st = Some o ∧
    obj (token Sim.client 10000000 "CustomToken" 18 "TKN" st).1 = Some o' ∧
    eth_utils.is_checksum_address c = true ∧
    obj_deployed_contracts o' !! obj_token_type o = Some (Some c).
Proof.
  cbv zeta.
  set (st := (main Sim.client "http://127.0.0.1:8545" "keyfile" 300 5 5500000
                   (initial Sim.client (Sim.node0 Sim.checksummed))).1).
  assert (Hobj : ∃ o, obj st = Some o) by (eexists; vm_compute; reflexivity).
  destruct Hobj as [o Hobj].
  assert (Hok : match (token Sim.client 10000000 "CustomToken" 18 "TKN" st).2
                with
                | inr _ => true
                | inl _ => false
                end = true) by (vm_compute; reflexivity).
  pose proof (token_all_or_nothing Sim.client 10000000 "CustomToken" 18 "TKN"
                                   st o Hobj) as H.
  cbv zeta in H.
  destruct (token Sim.client 10000000 "CustomToken" 18 "TKN" st).2;
    [discriminate Hok|].
  destruct H as (c & o' & evs & Hc & _ & Hobj' & _ & _ & _ & Hnew & _).
  exists o, o', c. split; [exact Hobj|]. split; [exact Hobj'|].
  split; [exact Hc | exact Hnew].
Defined.

(** The deployments of [raiden token] on the simulated node. *)
Lemma deployments_use_the_options_witness :
  get_private_key Sim.client (Sim.node0 Sim.checksummed) "keyfile"
    = Some (Some "key:keyfile") ∧
  load_contracts Sim.client (Sim.node0 Sim.checksummed) CONTRACTS_SOURCE_DIRS
    = Some Sim.artifacts ∧
  Forall (deployed_with
            "key:keyfile"
            (transaction_of
               (private_key_to_address Sim.client "key:keyfile") 5500000 5)
            Sim.artifacts)
         (trace (cli Sim.client 500 555428 "http://127.0.0.1:8545" "keyfile"
                     300 5 5500000
                     [Raiden; Token 10000000 "CustomToken" 18 "TKN"]
                     (initial Sim.client (Sim.node0 Sim.checksummed))).1).
Proof.
  split; [reflexivity|]. split; [reflexivity|].
  apply (deployments_use_the_options Sim.client 500 555428
           "http://127.0.0.1:8545" "keyfile" 300 5 5500000
           [Raiden; Token 10000000 "CustomToken" 18 "TKN"]
           (Sim.node0 Sim.checksummed) "key:keyfile" Sim.artifacts);
    reflexivity.
Defined.

(** The chain [raiden token register] after [main] on the simulated node:
    the registration goes to the third address that the node reported,
    for the token at the fourth. *)
Lemma chain_registers_the_deployed_witness :
  let st := (main Sim.client "http://127.0.0.1:8545" "keyfile" 300 5 5500000
                  (initial Sim.client (Sim.node0 Sim.checksummed))).1 in
  let commands := [Raiden; Token 10000000 "CustomToken" 18 "TKN";
                   Register None None] in
  ∃ o (m : gmap string (option string)) registry c pre post,
    obj st = Some o ∧
    obj_token_type o ≠ CONTRACT_TOKEN_NETWORK_REGISTRY ∧
    (invoke_chain Sim.client 500 555428 commands st).2 = inr tt ∧
    m !! CONTRACT_TOKEN_NETWORK_REGISTRY = Some registry ∧
    trace (invoke_chain Sim.client 500 555428 commands st).1
      = pre
        ++ EvTransact {| fr_abi :=
                           abi (Sim.interface_of
                                  CONTRACT_TOKEN_NETWORK_REGISTRY);
                         fr_address := registry;
                         fr_function := "createERC20TokenNetwork";
                         fr_args := [PyStr c];
                         fr_transaction := {["gas_limit" := PyInt 4000000]};
                         fr_private_key := "key:keyfile" |}
        :: post.
Proof.
  cbv zeta.
  set (st := (main Sim.client "http://127.0.0.1:8545" "keyfile" 300 5 5500000
                   (initial Sim.client (Sim.node0 Sim.checksummed))).1).
  assert (Hobj : ∃ o, obj st = Some o ∧
                      obj_token_type o = "CustomToken" ∧
                      d_private_key (obj_deployer o) = "key:keyfile" ∧
                      contracts (d_contract_manager (obj_deployer o))
                        !! CONTRACT_TOKEN_NETWORK_REGISTRY
                      = Some (Sim.interface_of
                                CONTRACT_TOKEN_NETWORK_REGISTRY))
    by (eexists; vm_compute; repeat split; reflexivity).
  destruct Hobj as (o & Hobj & Hty & Hkey & Hi).
  assert (Hne : obj_token_type o ≠ CONTRACT_TOKEN_NETWORK_REGISTRY)
    by (rewrite Hty; discriminate).
  assert (Hok : match (invoke_chain Sim.client 500 555428
                         [Raiden; Token 10000000 "CustomToken" 18 "TKN";
                          Register None None] st).2 with
                | inr _ => true
                | inl _ => false
                end = true) by (vm_compute; reflexivity).
  destruct (invoke_chain Sim.client 500 555428
              [Raiden; Token 10000000 "CustomToken" 18 "TKN";
               Register None None] st) as [st' [e|[]]] eqn:Hrun.
  { discriminate Hok. }
  destruct (chain_registers_the_deployed Sim.client 500 555428
              10000000 "CustomToken" 18 "TKN" st st' o Hobj Hne Hrun)
    as (m & registry & c & i & evs1 & evs2 & evs3 & Hreg & Hi' & _ & _ & Htr).
  rewrite Hi in Hi'. injection Hi' as <-. rewrite Hkey in Htr.
  exists o, m, registry, c.
  exists (trace st ++ evs1 ++ [EvPrint (OutDeployed m)] ++ evs2
          ++ [EvPrint (OutDeployed {[obj_token_type o := Some c]})]), evs3.
  split; [exact Hobj|]. split; [exact Hne|]. split; [reflexivity|].
  split; [exact Hreg|]. cbn [fst]. rewrite Htr.
  rewrite <- !app_assoc. reflexivity.
Defined.

(** The raiden pipeline of a deployer that does not wait, on the node that
    mines at once. *)
Lemma raiden_contract_names_witness :
  ∃ st' (m : gmap string (option string)),
    deploy_raiden_contracts Sim.client 500 555428 Sim.impatient
                            (initial Sim.client (Sim.node0 Sim.checksummed))
      = (st', inr m) ∧
    dom m = {[CONTRACT_ENDPOINT_REGISTRY; CONTRACT_SECRET_REGISTRY;
              CONTRACT_TOKEN_NETWORK_REGISTRY]}.
Proof.
  assert (Hok : match (deploy_raiden_contracts
                         Sim.client 500 555428 Sim.impatient
                         (initial Sim.client
                                  (Sim.node0 Sim.checksummed))).2 with
                | inr _ => true
                | inl _ => false
                end = true) by (vm_compute; reflexivity).
  destruct (deploy_raiden_contracts Sim.client 500 555428 Sim.impatient
              (initial Sim.client (Sim.node0 Sim.checksummed)))
    as [st' [e|m]] eqn:Hrun.
  { discriminate Hok. }
  exists st', m. split; [reflexivity|].
  exact (proj1 (raiden_contract_names Sim.client 500 555428 _ _ _ _ Hrun)).
Defined.

(** An address of [is_address], in checksum format already. *)
Lemma validate_address_valid_witness :
  let v := "0x5aAeb6053F3E94C9b9A09f33669435E7Ef1BeAed" in
  eth_utils.is_address v = true ∧
  ∃ a, validate_address (Some v) = inr (Some a) ∧
       eth_utils.to_checksum_address v = inr a ∧
       eth_utils.is_checksum_address a = true.
Proof.
  cbv zeta. split; [vm_compute; reflexivity|].
  apply validate_address_valid. vm_compute. reflexivity.
Defined.

(** Forty hexadecimal digits in upper case, without prefix. *)
Lemma validate_address_accepts_witness :
  let v := "5AAEB6053F3E94C9B9A09F33669435E7EF1BEAED" in
  v ≠ "" ∧
  validate_address (Some v)
    = inr (Some "0x5aAeb6053F3E94C9b9A09f33669435E7Ef1BeAed").
Proof.
  cbv zeta. split; [discriminate|].
  assert (Hne : "5AAEB6053F3E94C9B9A09F33669435E7EF1BEAED" ≠ "")
    by discriminate.
  pose proof (validate_address_accepts _ Hne) as H. cbv zeta in H.
  assert (Hshape :
            eth_utils.all_hexdigits
              (eth_utils.remove_0x_prefix
                 "5AAEB6053F3E94C9B9A09F33669435E7EF1BEAED")
            && (String.length
                  (eth_utils.remove_0x_prefix
                     "5AAEB6053F3E94C9B9A09F33669435E7EF1BEAED") =? 40)%nat
            = true) by (vm_compute; reflexivity).
  rewrite Hshape in H. rewrite H. vm_compute. reflexivity.
Defined.

(** The raiden pipeline on the simulated node, which mines: the three
    deployments in order, the third with the address of the second. *)
Lemma raiden_deployment_order_witness :
  let run := deploy_raiden_contracts
               Sim.client 500 555428 Sim.impatient
               (initial Sim.client (Sim.node0 Sim.checksummed)) in
  ∃ m : gmap string (option string),
    run.2 = inr m ∧
    deployments (trace run.1)
      = [(CONTRACT_ENDPOINT_REGISTRY, []);
         (CONTRACT_SECRET_REGISTRY, []);
         (CONTRACT_TOKEN_NETWORK_REGISTRY,
          [PyStr "0xfB6916095ca1df60bB79Ce92cE3Ea74c37c5d359"; PyInt 337;
           PyInt 500; PyInt 555428])].
Proof.
  cbv zeta.
  destruct (raiden_deployment_order
              Sim.client 500 555428 Sim.impatient
              (initial Sim.client (Sim.node0 Sim.checksummed)))
    as [_ Hruns].
  destruct (Hruns (λ w, Sim.sim_mines w = true) sim_client_mines eq_refl)
    as (evs & a1 & a2 & a3 & network & Hres & _).
  { intros n Hn.
    apply elem_of_cons in Hn as [-> | Hn]; [by eexists|].
    apply elem_of_cons in Hn as [-> | Hn]; [by eexists|].
    apply list_elem_of_singleton in Hn as ->. by eexists. }
  eexists. split; [exact Hres|]. vm_compute. reflexivity.
Defined.

(** Construction on the simulated node, whose artifact store is readable
    and consistent: one verification, and the construction succeeds. *)
Lemma timeout_and_checksum_are_fatal_witness :
  let run := __init__ Sim.client "key:keyfile" 5500000 5 300
                      (initial Sim.client (Sim.node0 Sim.checksummed)) in
  readable_artifacts Sim.client (Sim.node0 Sim.checksummed) ∧
  (∃ d, run.2 = inr d) ∧
  verifications (trace run.1) = [CONTRACTS_PRECOMPILED_PATH].
Proof.
  cbv zeta.
  assert (Hread : readable_artifacts Sim.client (Sim.node0 Sim.checksummed))
    by (repeat split; eexists; reflexivity).
  destruct (timeout_and_checksum_are_fatal
              Sim.client 500 555428 Sim.impatient CONTRACT_ENDPOINT_REGISTRY
              None (initial Sim.client (Sim.node0 Sim.checksummed))
              "key:keyfile" 5500000 5 300 "http://127.0.0.1:8545" [Raiden]
              (Sim.node0 Sim.checksummed))
    as (_ & [(vs & Hvs & _ & _ & Honce) Hverdict] & _).
  destruct (Honce Hread) as [-> _].
  split; [exact Hread|]. split; [|exact Hvs].
  destruct (Hverdict (Sim.checksums true) (Sim.checksums true)
                     eq_refl eq_refl) as [_ Hok].
  apply Hok; [reflexivity | by eexists | by eexists].
Defined.

